(** * jada5platform: the balance ledger of [server.js]

    A shallow embedding of the Express/Mongoose routes of [server.js] that
    touch a user's balance, the transaction log, the tickets and the wheel:
    [/api/transactions], [/api/deposit], [/api/withdraw] with its
    [setTimeout] callback, [/api/tickets/purchase] and [/api/games/spin].

    Modelling conventions.
    - A JavaScript [Number] holding money, a quantity or a date is modelled
      by the integer it denotes ([Z]); dates are milliseconds since the
      epoch. The code computes on binary64 values: sums, differences and
      products of integers are the integers of this model as long as
      operands and result stay within [-2^53, 2^53] ([safe]), and beyond
      that the code rounds where this model does not. Statements about the
      value of a sum say so by [safe] hypotheses.
    - The one product the code takes of a fraction, [Math.random() *
      prizes.length], is rounded as binary64 rounds it ([floor_binary64]).
    - A request body is passed field by field. A field a route can receive
      in a shape that changes what the route does has a type saying so:
      [gameId] is an [IdParam], the [amount] of a deposit and the
      [password] of a login are options. The other fields are well formed:
      amounts and quantities are integers, names and emails are strings.
    - [Math.random()] and [Date.now()] are inputs of the route that calls
      them: [rnd] is the value of [Math.random().toString(36).substr(2, 9)],
      [r] the value of [Math.random()] itself (the rational a binary64 in
      [0, 1) denotes), [now] the clock. A route is given one clock value. A
      purchase reads the clock once for the draw date, one [Date] that all
      its tickets share, set [durationDays] days ahead on the local calendar
      (here: days of 86400000 ms), and once more per ticket for the default
      of [purchaseDate] (here: the same clock value). Of these dates the
      theorems about purchases state only that the tickets of one purchase
      share their draw date.
    - The collections of the database are fields of [State]. Users and games
      are keyed by their [_id]; the transaction log and the tickets are kept
      in insertion order, and the [_id] of a transaction is its position in
      the log (no route deletes a record).
    - A Mongoose document is a copy of a record held by a route. [save] of a
      new document inserts it, after the schema's [required] validators and
      the collection's [unique] index; [save] of a loaded document writes
      only the paths that were assigned a different value, and nothing when
      there is none.
    - Requests are served one at a time: a route runs to completion before
      the next request is served ([run], [serve_all]). Two handlers that
      overlap at an [await] are outside this model. The only code that runs
      later is the callback given to [setTimeout], kept in [timers] with
      the documents it closed over. *)

From Stdlib Require Import ZArith QArith Qround String Ascii List Lia.
From stdpp Require Import base option list gmap strings pretty sorting.

Local Open Scope Z_scope.

(** ** Schemas *)

Definition ObjectId := nat.

(** [userSchema] *)
Record User := {
  username : string;
  email : string;
  password : string;
  phone : string;
  balance : Z
}.

Inductive TransactionType := deposit | withdrawal | game_purchase | prize_won.
Inductive TransactionStatus := pending | completed | failed.

(** [transactionSchema] *)
Record Transaction := {
  userId : ObjectId;
  type : TransactionType;
  status : TransactionStatus;
  amount : Z;
  transactionId : string;
  description : string;
  createdAt : Z
}.

Inductive GameType := wheel | draw.

Record Prize := { position : Z; prize_amount : Z }.

(** [gameSchema] *)
Record Game := {
  name : string;
  game_type : GameType;
  price : Z;
  prizePool : Z;
  durationDays : Z;
  spinsPerDay : Z;
  prizes : list Prize;
  active : bool
}.

Inductive TicketStatus := ticket_active | won | lost.

(** [ticketSchema] *)
Record Ticket := {
  ticket_userId : ObjectId;
  ticket_gameId : ObjectId;
  ticketCode : string;
  purchaseDate : Z;
  drawDate : Z;
  ticket_status : TicketStatus;
  prizeWon : Z
}.

Global Instance TransactionType_eq_dec : EqDecision TransactionType.
Proof. solve_decision. Defined.
Global Instance TransactionStatus_eq_dec : EqDecision TransactionStatus.
Proof. solve_decision. Defined.

(** ** Documents *)

(** A [User] document as a route holds it: the record, its [_id], and whether
    [balance] was assigned a value different from the one it had. *)
Record UserDoc := {
  user_id : ObjectId;
  user_doc : User;
  balance_modified : bool
}.

(** A saved [Transaction] document: the record, its [_id] (its position in
    the log), and whether [status] was assigned a different value. *)
Record TransactionDoc := {
  transaction_id : nat;
  transaction_doc : Transaction;
  status_modified : bool
}.

(** What the callback of [setTimeout] in [/api/withdraw] closes over. *)
Record Timer := {
  timer_transaction : TransactionDoc;
  timer_user : UserDoc;
  timer_amount : Z;
  timer_phone : string
}.

(** ** The server's state *)

Record State := {
  users : gmap ObjectId User;
  games : gmap ObjectId Game;
  transactions : list Transaction;
  tickets : list Ticket;
  timers : list Timer
}.

Definition with_users (f : gmap ObjectId User → gmap ObjectId User) (s : State) : State :=
  {| users := f (users s); games := games s; transactions := transactions s;
     tickets := tickets s; timers := timers s |}.

Definition with_transactions (f : list Transaction → list Transaction) (s : State) : State :=
  {| users := users s; games := games s; transactions := f (transactions s);
     tickets := tickets s; timers := timers s |}.

Definition with_tickets (f : list Ticket → list Ticket) (s : State) : State :=
  {| users := users s; games := games s; transactions := transactions s;
     tickets := f (tickets s); timers := timers s |}.

Definition with_timers (f : list Timer → list Timer) (s : State) : State :=
  {| users := users s; games := games s; transactions := transactions s;
     tickets := tickets s; timers := f (timers s) |}.

Definition set_balance (b : Z) (u : User) : User :=
  {| username := username u; email := email u; password := password u;
     phone := phone u; balance := b |}.

Definition set_status (st : TransactionStatus) (t : Transaction) : Transaction :=
  {| userId := userId t; type := type t; status := st; amount := amount t;
     transactionId := transactionId t; description := description t;
     createdAt := createdAt t |}.

(** ** Responses *)

Inductive Response :=
  | DepositOk (new_balance : Z)
  | WithdrawOk (id : string)
  | PurchaseOk (new_tickets : list Ticket) (new_balance : Z)
  | SpinOk (prize pos new_balance : Z)
  | TransactionsOk (found : list Transaction)
  | Failure (http_status : nat) (error : string).

Definition AuthenticationRequired : Response := Failure 401 "Authentication required".
Definition UserNotFound : Response := Failure 404 "User not found".
Definition GameNotFound : Response := Failure 404 "Game not found".
Definition InsufficientBalance : Response := Failure 400 "Insufficient balance".
Definition InternalServerError : Response := Failure 500 "Internal server error".

(** ** Route bodies: state, early [return res...], and exceptions *)

Inductive Outcome (A : Type) :=
  | Value (a : A)
  | Responded (r : Response)
  | Thrown.
Arguments Value {A} a.
Arguments Responded {A} r.
Arguments Thrown {A}.

Definition Route (A : Type) := State → State * Outcome A.

Definition ret {A} (a : A) : Route A := λ s, (s, Value a).
Definition respond {A} (r : Response) : Route A := λ s, (s, Responded r).
Definition throw {A} : Route A := λ s, (s, Thrown).

Definition bind {A B} (m : Route A) (k : A → Route B) : Route B :=
  λ s, match m s with
       | (s', Value a) => k a s'
       | (s', Responded r) => (s', Responded r)
       | (s', Thrown) => (s', Thrown)
       end.

Notation "'let*' x ':=' m 'in' k" := (bind m (λ x, k))
  (at level 10, x name, m at level 100, k at level 200).

(** [try { ... } catch (error) { res.status(500).json(...) }] around a body. *)
Definition try_catch (body : Route Response) : State → State * Response :=
  λ s, match body s with
       | (s', Value r) => (s', r)
       | (s', Responded r) => (s', r)
       | (s', Thrown) => (s', InternalServerError)
       end.

(** [requireAuth] *)
Definition requireAuth (session : option ObjectId) (next : ObjectId → State → State * Response)
    : State → State * Response :=
  match session with
  | None => λ s, (s, AuthenticationRequired)
  | Some uid => next uid
  end.

(** ** The record store as Mongoose drives it *)

(** [User.findById(id)]: a fresh, unmodified document, or [null]. *)
Definition User_findById (uid : ObjectId) : Route (option UserDoc) :=
  λ s, (s, Value ((λ u, {| user_id := uid; user_doc := u; balance_modified := false |})
                    <$> users s !! uid)).

(** [req.body.gameId] as [findById] casts it: a value that casts to an
    [ObjectId]; [undefined] or [null], looked up as [_id: null]; or a value
    that does not cast. *)
Inductive IdParam :=
  | id_of (i : ObjectId)
  | id_null
  | id_invalid.

Global Instance IdParam_eq_dec : EqDecision IdParam.
Proof. solve_decision. Defined.

(** [Game.findById(gameId)]: the game with its [_id], or [null]; a value that
    does not cast to an [ObjectId] is a [CastError]. *)
Definition Game_findById (gameId : IdParam) : Route (option (ObjectId * Game)) :=
  λ s, match gameId with
       | id_of gid => (s, Value ((λ g, (gid, g)) <$> games s !! gid))
       | id_null => (s, Value None)
       | id_invalid => (s, Thrown)
       end.

(** [user.balance = b] on a document. *)
Definition assign_balance (b : Z) (d : UserDoc) : UserDoc :=
  {| user_id := user_id d;
     user_doc := set_balance b (user_doc d);
     balance_modified := balance_modified d || negb (b =? balance (user_doc d)) |}.

(** [user.save()] on a loaded document: [$set] of [balance] when modified. *)
Definition User_save (d : UserDoc) : Route UserDoc :=
  λ s, if balance_modified d then
         match users s !! user_id d with
         | Some u =>
             (with_users (insert (user_id d) (set_balance (balance (user_doc d)) u)) s,
              Value {| user_id := user_id d; user_doc := user_doc d;
                       balance_modified := false |})
         | None => (s, Thrown)
         end
       else (s, Value d).

(** [new Transaction({...})] followed by [save()]: [transactionId] is
    [required] (the empty string fails it, as a missing value does) and
    [unique]. *)
Definition Transaction_insert (t : Transaction) : Route TransactionDoc :=
  λ s, if decide (transactionId t = EmptyString) then (s, Thrown)
       else if decide (transactionId t ∈ transactionId <$> transactions s) then (s, Thrown)
       else (with_transactions (λ log, log ++ [t]) s,
             Value {| transaction_id := length (transactions s);
                      transaction_doc := t; status_modified := false |}).

(** [transaction.status = st] on a document. *)
Definition assign_status (st : TransactionStatus) (d : TransactionDoc) : TransactionDoc :=
  {| transaction_id := transaction_id d;
     transaction_doc := set_status st (transaction_doc d);
     status_modified :=
       status_modified d || negb (bool_decide (st = status (transaction_doc d))) |}.

(** [transaction.save()] on a saved document: [$set] of [status] when modified. *)
Definition Transaction_save (d : TransactionDoc) : Route TransactionDoc :=
  λ s, if status_modified d then
         match transactions s !! transaction_id d with
         | Some _ =>
             (with_transactions
                (alter (set_status (status (transaction_doc d))) (transaction_id d)) s,
              Value {| transaction_id := transaction_id d;
                       transaction_doc := transaction_doc d;
                       status_modified := false |})
         | None => (s, Thrown)
         end
       else (s, Value d).

(** [new Ticket({...})] followed by [save()]: [ticketCode] is [required] and
    [unique]. *)
Definition Ticket_insert (t : Ticket) : Route Ticket :=
  λ s, if decide (ticketCode t = EmptyString) then (s, Thrown)
       else if decide (ticketCode t ∈ ticketCode <$> tickets s) then (s, Thrown)
       else (with_tickets (λ all, all ++ [t]) s, Value t).

(** [Transaction.find({ userId }).sort({ createdAt: -1 }).limit(50)] *)
Definition newer_first (a b : Transaction) : Prop := createdAt b ≤ createdAt a.

Global Instance newer_first_dec a b : Decision (newer_first a b).
Proof. unfold newer_first. apply _. Defined.

Definition Transaction_find (uid : ObjectId) (log : list Transaction) : list Transaction :=
  filter (λ t, userId t = uid) log.

Definition sort_createdAt_desc (l : list Transaction) : list Transaction :=
  merge_sort newer_first l.

Definition limit (n : nat) (l : list Transaction) : list Transaction := take n l.

(** [setTimeout(callback, 5000)] *)
Definition setTimeout (t : Timer) : Route unit :=
  λ s, (with_timers (λ q, q ++ [t]) s, Value tt).

(** ** Strings and arrays *)

Definition toUpperCase_char (c : ascii) : ascii :=
  let n := nat_of_ascii c in
  if ((97 <=? n) && (n <=? 122))%nat then ascii_of_nat (n - 32) else c.

Fixpoint toUpperCase (s : string) : string :=
  match s with
  | EmptyString => EmptyString
  | String c s' => String (toUpperCase_char c) (toUpperCase s')
  end.

(** [a[i]] for an integer [i]: [undefined] outside the array. *)
Definition array_get {A} (a : list A) (i : Z) : option A :=
  if i <? 0 then None else a !! Z.to_nat i.

(** ** Numbers *)

(** The integers on which the arithmetic of binary64 is exact. *)
Definition safe (z : Z) : Prop := - 2 ^ 53 ≤ z ≤ 2 ^ 53.

Global Instance safe_dec z : Decision (safe z).
Proof. unfold safe. apply _. Defined.

(** [z * 2^k] for a positive [k], [z] otherwise. *)
Definition scaled (z k : Z) : Z := z * 2 ^ Z.max 0 k.

(** The binary exponent [e] of the positive fraction [a/b]:
    [2^e ≤ a/b < 2^(e+1)]. *)
Definition exponent (a b : Z) : Z :=
  let e := Z.log2 a - Z.log2 b in
  if scaled a (- e) <? scaled b e then e - 1 else e.

(** The integer nearest to [n/d], the even one of two that are as near. *)
Definition nearest_even (n d : Z) : Z :=
  let f := n / d in
  let twice := 2 * (n mod d) in
  if twice <? d then f
  else if d <? twice then f + 1
  else if Z.even f then f else f + 1.

(** [Math.floor(x)] for the binary64 [x] nearest to the fraction [a/b]
    ([0 < b], and [a/b] below [2^1024] in magnitude): [x] is the multiple of
    [2^p] nearest to [a/b], ties to the even multiple, where [2^p] is the gap
    between binary64 values at the exponent of [a/b] (53 significant bits,
    and [2^-1074] in the subnormal range). *)
Definition floor_binary64 (a b : Z) : Z :=
  if a =? 0 then 0
  else
    let p := Z.max (exponent (Z.abs a) b - 52) (-1074) in
    let m := Z.sgn a * nearest_even (scaled (Z.abs a) (- p)) (scaled b p) in
    if 0 <=? p then m * 2 ^ p else m / 2 ^ (- p).

(** [Math.floor(Math.random() * n)]: the product of two binary64 values is
    the binary64 nearest to their exact product. *)
Definition random_index (r : Q) (n : nat) : Z :=
  let x := (r * inject_Z (Z.of_nat n))%Q in
  floor_binary64 (Qnum x) (Z.pos (Qden x)).

(** [1 - 2^-53], the largest binary64 below 1: [Math.random()] is at most
    this. *)
Definition below_one : Q := 9007199254740991 # 9007199254740992.

Definition day_ms : Z := 86400000.

(** ** Routes *)

(** [GET /api/transactions] *)
Definition get_transactions (session : option ObjectId) : State → State * Response :=
  requireAuth session (λ uid, try_catch (
    λ s, ret (TransactionsOk
                (limit 50 (sort_createdAt_desc (Transaction_find uid (transactions s))))) s)).

(** [POST /api/deposit], with [req.body = { amount, transactionId }]. With
    no [amount] in the body [user.balance += amount] is [NaN], which
    [user.save()] refuses to cast. *)
Definition post_deposit (session : option ObjectId) (amount : option Z)
    (transactionId : string) (now : Z) : State → State * Response :=
  requireAuth session (λ uid, try_catch (
    let* found := User_findById uid in
    match found with
    | None => respond UserNotFound
    | Some user =>
        match amount with
        | None => throw
        | Some amount =>
            let user := assign_balance (balance (user_doc user) + amount) user in
            let* user := User_save user in
            let* _ := Transaction_insert
              {| userId := user_id user; type := deposit; status := completed;
                 amount := amount; transactionId := transactionId;
                 description := "Deposit via Pesapal"; createdAt := now |} in
            ret (DepositOk (balance (user_doc user)))
        end
    end)).

(** The callback that [/api/withdraw] hands to [setTimeout]. Its own
    [try]/[catch] only logs. *)
Definition settlement (t : Timer) : Route unit :=
  let transaction := assign_status completed (timer_transaction t) in
  let* _ := Transaction_save transaction in
  let user :=
    assign_balance (balance (user_doc (timer_user t)) - timer_amount t) (timer_user t) in
  let* _ := User_save user in
  ret tt.

(** [POST /api/withdraw], with [req.body = { amount, phone }] *)
Definition post_withdraw (session : option ObjectId) (amount : Z) (phone : string)
    (rnd : string) (now : Z) : State → State * Response :=
  requireAuth session (λ uid, try_catch (
    let* found := User_findById uid in
    match found with
    | None => respond UserNotFound
    | Some user =>
        if balance (user_doc user) <? amount then respond InsufficientBalance
        else
          let* transaction := Transaction_insert
            {| userId := user_id user; type := withdrawal; status := pending;
               amount := amount; transactionId := "wd_" +:+ rnd;
               description := "Withdrawal to " +:+ phone; createdAt := now |} in
          let* _ := setTimeout
            {| timer_transaction := transaction; timer_user := user;
               timer_amount := amount; timer_phone := phone |} in
          ret (WithdrawOk (transactionId (transaction_doc transaction)))
    end)).

(** The loop [for (let i = 0; i < quantity; i++)] of [/api/tickets/purchase]:
    [n] iterations are left, [i] is the loop counter, [codes i] the random
    suffix drawn in iteration [i], [made] the array [tickets]. *)
Fixpoint create_tickets (n : nat) (i : nat) (codes : nat → string) (uid gid : ObjectId)
    (drawDate now : Z) (made : list Ticket) : Route (list Ticket) :=
  match n with
  | O => ret made
  | S n' =>
      let ticketCode := "T" +:+ toUpperCase (codes i) in
      let* ticket := Ticket_insert
        {| ticket_userId := uid; ticket_gameId := gid; ticketCode := ticketCode;
           purchaseDate := now; drawDate := drawDate; ticket_status := ticket_active;
           prizeWon := 0 |} in
      create_tickets n' (S i) codes uid gid drawDate now (made ++ [ticket])
  end.

(** [POST /api/tickets/purchase], with [req.body = { gameId, quantity = 1 }] *)
Definition post_tickets_purchase (session : option ObjectId) (gameId : IdParam)
    (quantity : option Z) (rnd : string) (codes : nat → string) (now : Z)
    : State → State * Response :=
  requireAuth session (λ uid, try_catch (
    let quantity := default 1 quantity in
    let* found := User_findById uid in
    match found with
    | None => respond UserNotFound
    | Some user =>
        let* found := Game_findById gameId in
        match found with
        | None => respond GameNotFound
        | Some (game_id, game) =>
            let totalCost := price game * quantity in
            if balance (user_doc user) <? totalCost then respond InsufficientBalance
            else
              let user := assign_balance (balance (user_doc user) - totalCost) user in
              let* user := User_save user in
              let* _ := Transaction_insert
                {| userId := user_id user; type := game_purchase; status := completed;
                   amount := totalCost; transactionId := "tick_" +:+ rnd;
                   description :=
                     "Purchased " +:+ pretty quantity +:+ " ticket(s) for " +:+ name game;
                   createdAt := now |} in
              let drawDate := now + durationDays game * day_ms in
              let* tickets := create_tickets (Z.to_nat quantity) 0 codes
                                (user_id user) game_id drawDate now [] in
              ret (PurchaseOk tickets (balance (user_doc user)))
        end
    end)).

(** [POST /api/games/spin], with [req.body = { gameId }] *)
Definition post_games_spin (session : option ObjectId) (gameId : IdParam) (r : Q)
    (rnd : string) (now : Z) : State → State * Response :=
  requireAuth session (λ uid, try_catch (
    let* found := User_findById uid in
    match found with
    | None => respond UserNotFound
    | Some user =>
        let* found := Game_findById gameId in
        match found with
        | None => respond GameNotFound
        | Some (_, game) =>
            let prizes := prizes game in
            let randomIndex := random_index r (length prizes) in
            match array_get prizes randomIndex with
            | None => throw (* [prize] is [undefined]: [prize.amount] is a TypeError *)
            | Some prize =>
                if 0 <? prize_amount prize then
                  let user :=
                    assign_balance (balance (user_doc user) + prize_amount prize) user in
                  let* user := User_save user in
                  let* _ := Transaction_insert
                    {| userId := user_id user; type := prize_won; status := completed;
                       amount := prize_amount prize; transactionId := "win_" +:+ rnd;
                       description :=
                         "Won prize from " +:+ name game +:+ " (Position: "
                           +:+ pretty (position prize) +:+ ")";
                       createdAt := now |} in
                  ret (SpinOk (prize_amount prize) (position prize)
                         (balance (user_doc user)))
                else
                  ret (SpinOk (prize_amount prize) (position prize)
                         (balance (user_doc user)))
            end
        end
    end)).

(** ** Runs of the server *)

(** The oldest pending [setTimeout] callback runs (all have the same delay). *)
Definition timer_fires (s : State) : State :=
  match timers s with
  | [] => s
  | t :: later => fst (settlement t (with_timers (λ _, later) s))
  end.

Inductive Event :=
  | GetTransactions (session : option ObjectId)
  | Deposit (session : option ObjectId) (amount : Z) (transactionId : string) (now : Z)
  | Withdraw (session : option ObjectId) (amount : Z) (phone rnd : string) (now : Z)
  | PurchaseTicket (session : option ObjectId) (gameId : IdParam) (quantity : option Z)
      (rnd : string) (codes : nat → string) (now : Z)
  | SpinWheel (session : option ObjectId) (gameId : IdParam) (r : Q) (rnd : string) (now : Z)
  | TimerFires.

Definition handle (e : Event) (s : State) : State * option Response :=
  match e with
  | GetTransactions session =>
      let '(s', res) := get_transactions session s in (s', Some res)
  | Deposit session amount transactionId now =>
      let '(s', res) := post_deposit session (Some amount) transactionId now s in
      (s', Some res)
  | Withdraw session amount phone rnd now =>
      let '(s', res) := post_withdraw session amount phone rnd now s in (s', Some res)
  | PurchaseTicket session gameId quantity rnd codes now =>
      let '(s', res) := post_tickets_purchase session gameId quantity rnd codes now s in
      (s', Some res)
  | SpinWheel session gameId r rnd now =>
      let '(s', res) := post_games_spin session gameId r rnd now s in (s', Some res)
  | TimerFires => (timer_fires s, None)
  end.

Definition step (e : Event) (s : State) : State := fst (handle e s).

Definition run (es : list Event) (s : State) : State := foldl (λ s e, step e s) s es.

(** The state once accounts exist (registration stores [balance: 0]) and
    nothing else has happened. *)
Definition initial (s : State) : Prop :=
  transactions s = [] ∧ tickets s = [] ∧ timers s = [] ∧
  ∀ uid u, users s !! uid = Some u → balance u = 0.

Definition reachable (s : State) : Prop := ∃ s0 es, initial s0 ∧ s = run es s0.

(** ** Accounts, sessions and the read routes *)

(** Routes whose answer is not one of [Response] send a payload of their
    own: [inr] carries it, [inl] an error response. *)
Definition try_catch_json {A} (body : Route A) : State → State * (Response + A) :=
  λ s, match body s with
       | (s', Value a) => (s', inr a)
       | (s', Responded r) => (s', inl r)
       | (s', Thrown) => (s', inl InternalServerError)
       end.

(** [requireAuth] in front of such a route. *)
Definition requireAuth_json {A} (session : option ObjectId)
    (next : ObjectId → State → State * (Response + A)) : State → State * (Response + A) :=
  match session with
  | None => λ s, (s, inl AuthenticationRequired)
  | Some uid => next uid
  end.

Definition UserAlreadyExists : Response := Failure 400 "User already exists".
Definition InvalidCredentials : Response := Failure 400 "Invalid credentials".

(** The [user] object of the answers of [/api/register] and [/api/login]. *)
Record Account := {
  account_id : ObjectId;
  account_username : string;
  account_email : string;
  account_balance : Z
}.

Definition account_of (d : UserDoc) : Account :=
  {| account_id := user_id d; account_username := username (user_doc d);
     account_email := email (user_doc d); account_balance := balance (user_doc d) |}.

Definition has_email (e : string) (u : User) : Prop := email u = e.
Definition has_username (n : string) (u : User) : Prop := username u = n.

Global Instance has_email_dec e u : Decision (has_email e u).
Proof. unfold has_email. apply _. Defined.
Global Instance has_username_dec n u : Decision (has_username n u).
Proof. unfold has_username. apply _. Defined.

(** [User.findOne(query)]: a stored user that satisfies the query, the first
    of the collection in the order [map_to_list] lists it. *)
Definition User_findOne (P : User → Prop) `{∀ u, Decision (P u)} : Route (option UserDoc) :=
  λ s, (s, Value ((λ ku : ObjectId * User,
                     {| user_id := ku.1; user_doc := ku.2; balance_modified := false |})
                    <$> head (filter (λ ku : ObjectId * User, P ku.2)
                                (map_to_list (users s))))).

(** [new User({...})] followed by [save()]: [username], [email] and
    [password] are [required], [username] and [email] are [unique], and the
    document gets an [_id] no stored user has. *)
Definition User_insert (u : User) : Route UserDoc :=
  λ s, if decide (username u = EmptyString ∨ email u = EmptyString ∨
                  password u = EmptyString) then (s, Thrown)
       else if decide (Exists (λ v, has_username (username u) v ∨ has_email (email u) v)
                               (map_to_list (users s)).*2)
       then (s, Thrown)
       else let id := fresh (dom (users s)) in
            (with_users (insert id u) s,
             Value {| user_id := id; user_doc := u; balance_modified := false |}).

(** [POST /api/register], with [req.body = { username, email, password, phone }];
    [hashedPassword] is the value of [bcrypt.hash(password, 12)]. The second
    component is [req.session.userId] after the request. *)
Definition post_register (session : option ObjectId)
    (username email hashedPassword phone : string)
    : State → State * option ObjectId * (Response + Account) :=
  λ s,
    let body : Route UserDoc :=
      let* existingUser :=
        User_findOne (λ u, has_email email u ∨ has_username username u) in
      match existingUser with
      | Some _ => respond UserAlreadyExists
      | None =>
          User_insert {| username := username; email := email;
                         password := hashedPassword; phone := phone; balance := 0 |}
      end in
    match body s with
    | (s', Value user) => (s', Some (user_id user), inr (account_of user))
    | (s', Responded r) => (s', session, inl r)
    | (s', Thrown) => (s', session, inl InternalServerError)
    end.

(** [POST /api/login], with [req.body = { email, password }]; [compare]
    stands for [bcrypt.compare] on two strings. With no [password] in the
    body (or one that is not a string) [bcrypt.compare] rejects. *)
Definition post_login (compare : string → string → bool) (session : option ObjectId)
    (email : string) (pw : option string)
    : State → State * option ObjectId * (Response + Account) :=
  λ s,
    let body : Route UserDoc :=
      let* found := User_findOne (has_email email) in
      match found with
      | None => respond InvalidCredentials
      | Some user =>
          match pw with
          | None => throw
          | Some pw =>
              let isMatch := compare pw (password (user_doc user)) in
              if isMatch then ret user else respond InvalidCredentials
          end
      end in
    match body s with
    | (s', Value user) => (s', Some (user_id user), inr (account_of user))
    | (s', Responded r) => (s', session, inl r)
    | (s', Thrown) => (s', session, inl InternalServerError)
    end.

(** [GET /api/balance] *)
Definition get_balance (session : option ObjectId) : State → State * (Response + Z) :=
  requireAuth_json session (λ uid, try_catch_json (
    let* found := User_findById uid in
    match found with
    | None => respond UserNotFound
    | Some user => ret (balance (user_doc user))
    end)).

(** [GET /api/games]: [Game.find({ active: true })], each game with its [_id]. *)
Definition Game_find_active : Route (list (ObjectId * Game)) :=
  λ s, (s, Value (filter (λ kg : ObjectId * Game, active kg.2 = true)
                    (map_to_list (games s)))).

Definition get_games : State → State * (Response + list (ObjectId * Game)) :=
  try_catch_json (let* games := Game_find_active in ret games).

(** [GET /api/tickets]:
    [Ticket.find({ userId }).populate('gameId').sort({ purchaseDate: -1 })].
    [populate] puts beside each ticket the game its [gameId] names, or [null]. *)
Definition later_purchase_first (a b : Ticket) : Prop := purchaseDate b ≤ purchaseDate a.

Global Instance later_purchase_first_dec a b : Decision (later_purchase_first a b).
Proof. unfold later_purchase_first. apply _. Defined.

Global Instance later_purchase_first_total : Total later_purchase_first.
Proof. intros a b. unfold later_purchase_first. lia. Qed.

Global Instance later_purchase_first_trans : Transitive later_purchase_first.
Proof. intros a b c. unfold later_purchase_first. lia. Qed.

Definition Ticket_find (uid : ObjectId) (all : list Ticket) : list Ticket :=
  filter (λ t, ticket_userId t = uid) all.

Definition populate_gameId (s : State) (t : Ticket) : Ticket * option Game :=
  (t, games s !! ticket_gameId t).

Definition get_tickets (session : option ObjectId)
    : State → State * (Response + list (Ticket * option Game)) :=
  requireAuth_json session (λ uid, try_catch_json (
    λ s, ret (populate_gameId s <$>
                merge_sort later_purchase_first (Ticket_find uid (tickets s))) s)).

(** ** Runs with registrations *)

(** A call that can change the database: an event of the ledger, or a
    registration. Logins and the read routes leave it as it is. *)
Inductive Call :=
  | Ledger (e : Event)
  | Register (session : option ObjectId) (username email hashedPassword phone : string).

Definition serve (c : Call) (s : State) : State :=
  match c with
  | Ledger e => step e s
  | Register session username email hashedPassword phone =>
      (post_register session username email hashedPassword phone s).1.1
  end.

Definition serve_all (cs : list Call) (s : State) : State := foldl (λ s c, serve c s) s cs.

(** The states the server passes through, accounts coming from [initial]
    states or from registrations. *)
Definition served (s : State) : Prop := ∃ s0 cs, initial s0 ∧ s = serve_all cs s0.

(** No two stored users share an email or a username. *)
Definition accounts_unique (s : State) : Prop :=
  ∀ i j u v, users s !! i = Some u → users s !! j = Some v →
    email u = email v ∨ username u = username v → i = j.

(** ** The records the routes write *)

(** The record [/api/deposit] saves. *)
Definition deposit_record (uid : ObjectId) (a : Z) (tid : string) (now : Z) : Transaction :=
  {| userId := uid; type := deposit; status := completed; amount := a;
     transactionId := tid; description := "Deposit via Pesapal"; createdAt := now |}.

(** The record [/api/withdraw] saves. *)
Definition withdrawal_record (uid : ObjectId) (amt : Z) (phone rnd : string) (now : Z)
    : Transaction :=
  {| userId := uid; type := withdrawal; status := pending; amount := amt;
     transactionId := "wd_" +:+ rnd; description := "Withdrawal to " +:+ phone;
     createdAt := now |}.

(** The callback [/api/withdraw] queues in state [s] for the user [u] it loaded. *)
Definition withdrawal_callback (s : State) (uid : ObjectId) (u : User) (amt : Z)
    (phone rnd : string) (now : Z) : Timer :=
  {| timer_transaction :=
       {| transaction_id := length (transactions s);
          transaction_doc := withdrawal_record uid amt phone rnd now;
          status_modified := false |};
     timer_user := {| user_id := uid; user_doc := u; balance_modified := false |};
     timer_amount := amt; timer_phone := phone |}.

(** The record [/api/tickets/purchase] saves for [q] tickets of [g]. *)
Definition purchase_record (uid : ObjectId) (g : Game) (q : Z) (rnd : string) (now : Z)
    : Transaction :=
  {| userId := uid; type := game_purchase; status := completed; amount := price g * q;
     transactionId := "tick_" +:+ rnd;
     description := "Purchased " +:+ pretty q +:+ " ticket(s) for " +:+ name g;
     createdAt := now |}.

(** The record [/api/games/spin] saves for the prize [p] of [g]. *)
Definition prize_record (uid : ObjectId) (g : Game) (p : Prize) (rnd : string) (now : Z)
    : Transaction :=
  {| userId := uid; type := prize_won; status := completed; amount := prize_amount p;
     transactionId := "win_" +:+ rnd;
     description := "Won prize from " +:+ name g +:+ " (Position: "
                      +:+ pretty (position p) +:+ ")";
     createdAt := now |}.

(** ** Orders on the log *)

Global Instance newer_first_total : Total newer_first.
Proof. intros a b. unfold newer_first. lia. Qed.

Global Instance newer_first_trans : Transitive newer_first.
Proof. intros a b c. unfold newer_first. lia. Qed.

(** ** The ledger read off the log *)

Definition is_credit (t : Transaction) : Prop := type t = deposit ∨ type t = prize_won.
Definition is_debit (t : Transaction) : Prop := type t = withdrawal ∨ type t = game_purchase.

Global Instance is_credit_dec t : Decision (is_credit t).
Proof. unfold is_credit. apply _. Defined.
Global Instance is_debit_dec t : Decision (is_debit t).
Proof. unfold is_debit. apply _. Defined.

Definition total (l : list Transaction) : Z := foldr (λ t acc, amount t + acc) 0 l.

(** The sum of the amounts of [uid]'s [completed] deposits and prizes. *)
Definition completed_credits (uid : ObjectId) (log : list Transaction) : Z :=
  total (filter (λ t, userId t = uid ∧ status t = completed ∧ is_credit t) log).

(** The sum of the amounts of [uid]'s [completed] withdrawals and purchases. *)
Definition completed_debits (uid : ObjectId) (log : list Transaction) : Z :=
  total (filter (λ t, userId t = uid ∧ status t = completed ∧ is_debit t) log).

Definition ledger_agrees (s : State) : Prop :=
  ∀ uid u, users s !! uid = Some u →
    balance u = completed_credits uid (transactions s) - completed_debits uid (transactions s).

Definition balances_nonnegative (s : State) : Prop :=
  ∀ uid u, users s !! uid = Some u → 0 ≤ balance u.

Definition identifiers (s : State) : list string := transactionId <$> transactions s.

(** What one record adds to [completed_credits - completed_debits] of [uid]. *)
Definition contribution (uid : ObjectId) (t : Transaction) : Z :=
  if decide (userId t = uid ∧ status t = completed)
  then (if decide (is_credit t) then amount t else - amount t)
  else 0.

(** [completed_credits - completed_debits]: what the log says [uid] holds. *)
Definition net (uid : ObjectId) (log : list Transaction) : Z :=
  completed_credits uid log - completed_debits uid log.

(** ** Pending settlements *)

(** What holds of a callback from the moment [/api/withdraw] queues it: its
    documents are unmodified, the request-time check passed on the balance
    the user document carries, and its transaction is a [pending] withdrawal
    of the log. *)
Definition timer_ok (s : State) (t : Timer) : Prop :=
  balance_modified (timer_user t) = false ∧
  status_modified (timer_transaction t) = false ∧
  status (transaction_doc (timer_transaction t)) = pending ∧
  timer_amount t ≤ balance (user_doc (timer_user t)) ∧
  is_Some (users s !! user_id (timer_user t)) ∧
  ∃ tx, transactions s !! transaction_id (timer_transaction t) = Some tx ∧
        status tx = pending ∧ type tx = withdrawal ∧
        amount tx = timer_amount t ∧ userId tx = user_id (timer_user t).

Definition timers_ok (s : State) : Prop :=
  Forall (timer_ok s) (timers s) ∧
  NoDup ((λ t, transaction_id (timer_transaction t)) <$> timers s).

(** ** Conditions on a run *)

(** [along P es s]: every event of [es] satisfies [P] in the state it is
    handled in, starting from [s]. *)
Fixpoint along (P : Event → State → Prop) (es : list Event) (s : State) : Prop :=
  match es with
  | [] => True
  | e :: es' => P e s ∧ along P es' (step e s)
  end.

Definition deposit_nonnegative (e : Event) (_ : State) : Prop :=
  match e with
  | Deposit _ amount _ _ => 0 ≤ amount
  | _ => True
  end.

(** The numbers an event meets are integers on which the arithmetic of the
    code is exact: the amount or quantity of the request, the stored numbers
    its handler reads, and the sum, difference or product it computes. *)
Definition exact (e : Event) (s : State) : Prop :=
  match e with
  | Deposit (Some uid) a _ _ =>
      safe a ∧
      ∀ u, users s !! uid = Some u → safe (balance u) ∧ safe (balance u + a)
  | Withdraw (Some uid) a _ _ _ =>
      safe a ∧ ∀ u, users s !! uid = Some u → safe (balance u)
  | PurchaseTicket (Some uid) (id_of gid) q _ _ _ =>
      safe (default 1 q) ∧
      ∀ u g, users s !! uid = Some u → games s !! gid = Some g →
        safe (price g) ∧ safe (price g * default 1 q) ∧
        safe (balance u) ∧ safe (balance u - price g * default 1 q)
  | SpinWheel (Some uid) (id_of gid) r _ _ =>
      ∀ u g p, users s !! uid = Some u → games s !! gid = Some g →
        array_get (prizes g) (random_index r (length (prizes g))) = Some p →
        safe (prize_amount p) ∧ safe (balance u) ∧
        safe (balance u + prize_amount p)
  | TimerFires =>
      match timers s with
      | [] => True
      | t :: _ =>
          safe (timer_amount t) ∧ safe (balance (user_doc (timer_user t))) ∧
          safe (balance (user_doc (timer_user t)) - timer_amount t)
      end
  | _ => True
  end.

(** Every balance the event writes is accounted for. A request that reaches
    its balance write offers the log an identifier it accepts: the
    [transactionId] of a deposit is not empty and not in the log, and
    neither is in it the identifier generated by a purchase that passes the
    balance check or by a spin that draws a positive prize. A settlement
    finds the balance its user document was loaded with. *)
Definition accounted (e : Event) (s : State) : Prop :=
  match e with
  | Deposit (Some uid) _ tid _ =>
      is_Some (users s !! uid) → tid ≠ EmptyString ∧ tid ∉ identifiers s
  | PurchaseTicket (Some uid) (id_of gid) q rnd _ _ =>
      ∀ u g, users s !! uid = Some u → games s !! gid = Some g →
        price g * default 1 q ≤ balance u → "tick_" +:+ rnd ∉ identifiers s
  | SpinWheel (Some uid) (id_of gid) r rnd _ =>
      ∀ u g p, users s !! uid = Some u → games s !! gid = Some g →
        array_get (prizes g) (random_index r (length (prizes g))) = Some p →
        0 < prize_amount p → "win_" +:+ rnd ∉ identifiers s
  | TimerFires =>
      match timers s with
      | [] => True
      | t :: _ => ∀ u, users s !! user_id (timer_user t) = Some u →
                       balance u = balance (user_doc (timer_user t))
      end
  | _ => True
  end.


(** The state a request leaves when it wrote [uid]'s balance, then possibly a
    record, then possibly tickets. *)
Definition written (uid : ObjectId) (u : User) (delta : Z) (recorded : list Transaction)
    (minted : list Ticket) (s : State) : State :=
  with_tickets (λ all, all ++ minted)
    (with_transactions (λ log, log ++ recorded)
       (with_users (insert uid (set_balance (balance u + delta) u)) s)).

(** What a request that wrote a balance added to it: a deposit adds the
    amount it was sent, a purchase takes off a cost the balance covers, a
    spin adds a positive prize. *)
Definition gain (e : Event) (u : User) (delta : Z) : Prop :=
  match e with
  | Deposit _ amount _ _ => delta = amount
  | PurchaseTicket _ _ _ _ _ _ => 0 ≤ balance u + delta
  | SpinWheel _ _ _ _ _ => 0 < delta
  | _ => False
  end.

(** The state an accepted withdrawal request leaves: the [pending] record at
    the end of the log, and the callback at the end of the timers. *)
Definition queued (uid : ObjectId) (u : User) (amt : Z) (phone rnd : string) (now : Z)
    (s : State) : State :=
  with_timers (λ q, q ++ [withdrawal_callback s uid u amt phone rnd now])
    (with_transactions (λ log, log ++ [withdrawal_record uid amt phone rnd now]) s).

(** ** Properties a purchase is asked to have *)



(** ** Properties a spin and a withdrawal request are asked to have *)

(** Crediting of a prize: whenever the drawn entry has a positive amount the
    balance grows by it, a [completed] [prize_won] record of that amount is
    added to the log, and the answer carries amount, position and balance. *)
Definition spin_credits (s : State) (uid gid : ObjectId) (r : Q) (rnd : string) (now : Z)
    : Prop :=
  ∀ u g p, users s !! uid = Some u → games s !! gid = Some g →
    array_get (prizes g) (random_index r (length (prizes g))) = Some p →
    0 < prize_amount p →
    ∃ s', post_games_spin (Some uid) (id_of gid) r rnd now s
            = (s', SpinOk (prize_amount p) (position p) (balance u + prize_amount p)) ∧
          users s' !! uid = Some (set_balance (balance u + prize_amount p) u) ∧
          ∃ tx, transactions s' = transactions s ++ [tx] ∧ userId tx = uid ∧
                type tx = prize_won ∧ status tx = completed ∧
                amount tx = prize_amount p.

(** Acceptance of a withdrawal request: whenever the balance covers the
    amount a [pending] withdrawal record is added to the log and its
    identifier is the answer. *)
Definition withdraw_accepts (s : State) (uid : ObjectId) (amt : Z) (phone rnd : string)
    (now : Z) : Prop :=
  ∀ u, users s !! uid = Some u → amt ≤ balance u →
    ∃ s' tx, post_withdraw (Some uid) amt phone rnd now s
               = (s', WithdrawOk (transactionId tx)) ∧
             transactions s' = transactions s ++ [tx] ∧ userId tx = uid ∧
             type tx = withdrawal ∧ status tx = pending ∧ amount tx = amt.

(** ** A property a settlement is asked to have *)


(** ** A property a record operation is asked to have *)

(** Retry on collision: a withdrawal whose generated identifier is already in
    the log is still recorded, under an identifier the log did not have. *)
Definition collision_retried (s : State) (uid : ObjectId) (amt : Z) (phone rnd : string)
    (now : Z) : Prop :=
  "wd_" +:+ rnd ∈ identifiers s →
  ∃ s' id,
    post_withdraw (Some uid) amt phone rnd now s = (s', WithdrawOk id) ∧
    (id ∉ identifiers s) ∧ id ∈ identifiers s'.

(** ** Conditions on a run with registrations *)

Definition on_ledger (P : Event → State → Prop) (c : Call) (s : State) : Prop :=
  match c with
  | Ledger e => P e s
  | Register _ _ _ _ _ => True
  end.

(** [throughout P cs s]: every call of [cs] satisfies [P] in the state it is
    served in, starting from [s]. *)
Fixpoint throughout (P : Call → State → Prop) (cs : list Call) (s : State) : Prop :=
  match cs with
  | [] => True
  | c :: cs' => P c s ∧ throughout P cs' (serve c s)
  end.

(** ** What the stored records look like *)

(** A record is [completed], or a withdrawal that is still [pending]. *)
Definition status_ok (tx : Transaction) : Prop :=
  status tx = completed ∨ (status tx = pending ∧ type tx = withdrawal).

(** Every record and every ticket belongs to a stored user, and every ticket
    to a stored game. *)
Definition references_ok (s : State) : Prop :=
  Forall (λ tx, is_Some (users s !! userId tx)) (transactions s) ∧
  Forall (λ t, is_Some (users s !! ticket_userId t) ∧ is_Some (games s !! ticket_gameId t))
    (tickets s).

(** A ticket as [/api/tickets/purchase] makes it, and as it stays. *)
Definition ticket_fresh (t : Ticket) : Prop :=
  ticket_status t = ticket_active ∧ prizeWon t = 0.

(** The balance a response reports, when it reports one. *)
Definition reported_balance (res : Response) : option Z :=
  match res with
  | DepositOk b | PurchaseOk _ b | SpinOk _ _ b => Some b
  | _ => None
  end.

(** [req.session.userId] of the request behind an event. *)
Definition session_of (e : Event) : option ObjectId :=
  match e with
  | GetTransactions session | Deposit session _ _ _ | Withdraw session _ _ _ _
  | PurchaseTicket session _ _ _ _ _ | SpinWheel session _ _ _ _ => session
  | TimerFires => None
  end.

(** A ticket as the loop of [/api/tickets/purchase] makes it for user [uid]
    and game [gid] at [now], with draw date [dd]. *)
Definition made_by (uid gid : ObjectId) (dd now : Z) (t : Ticket) : Prop :=
  ticket_userId t = uid ∧ ticket_gameId t = gid ∧ drawDate t = dd ∧
  purchaseDate t = now ∧ ticket_status t = ticket_active ∧ prizeWon t = 0.

(** The user [/api/register] saves. *)
Definition new_user (username email hashedPassword phone : string) : User :=
  {| username := username; email := email; password := hashedPassword;
     phone := phone; balance := 0 |}.

(** A stored user already has this email or this username. *)
Definition taken (s : State) (username email : string) : Prop :=
  ∃ id v, users s !! id = Some v ∧ (has_email email v ∨ has_username username v).

(** Every [pending] record of the log is the transaction of a queued callback. *)
Definition pending_have_timers (s : State) : Prop :=
  ∀ i tx, transactions s !! i = Some tx → status tx = pending →
    ∃ t, t ∈ timers s ∧ transaction_id (timer_transaction t) = i.

(** What holds of the database in every state the server passes through. *)
Definition sound (s : State) : Prop :=
  timers_ok s ∧
  Forall status_ok (transactions s) ∧
  pending_have_timers s ∧
  NoDup (identifiers s) ∧
  NoDup (ticketCode <$> tickets s) ∧
  Forall ticket_fresh (tickets s) ∧
  references_ok s.

(** The users after a call: as before, or one stored user with another
    balance, or one new user under an unused [_id] whose email and username
    no stored user has. *)
Definition users_step (s s' : State) : Prop :=
  users s' = users s ∨
  (∃ uid u b, users s !! uid = Some u ∧ users s' = <[uid := set_balance b u]> (users s)) ∨
  (∃ n e h p, ¬ taken s n e ∧ users s !! fresh (dom (users s)) = None ∧
              s' = with_users (insert (fresh (dom (users s))) (new_user n e h p)) s).

(** ** Sample data for accounts *)

Definition empty_database : State :=
  {| users := ∅; games := ∅; transactions := []; tickets := []; timers := [] |}.

(** A stand-in for [bcrypt.compare]: the hash of [pw] is [pw] after "h:". *)
Definition sample_compare (pw hashed : string) : bool := bool_decide (hashed = "h:" +:+ pw).

(** ** Sample data *)

Definition alice (b : Z) : User :=
  {| username := "alice"; email := "alice@example.com"; password := "$2a$12$hash";
     phone := "0700000000"; balance := b |}.

Definition lucky_wheel : Game :=
  {| name := "Lucky Wheel"; game_type := wheel; price := 30; prizePool := 1000;
     durationDays := 7; spinsPerDay := 3;
     prizes := [ {| position := 0; prize_amount := 0 |};
                 {| position := 1; prize_amount := 100 |};
                 {| position := 2; prize_amount := 0 |} ];
     active := true |}.

Definition closed_draw : Game :=
  {| name := "Closed Draw"; game_type := draw; price := 30; prizePool := 500;
     durationDays := 7; spinsPerDay := 0; prizes := []; active := false |}.

(** Random suffixes for ticket codes: all different, and all the same. *)
Definition numbered_codes : nat → string := λ i, "k3j9x0q1" +:+ pretty i.
Definition repeated_code : nat → string := λ _, "k3j9x0q1z".

(** One account holding [b], the two games above, nothing else. *)
Definition one_account (b : Z) : State :=
  {| users := {[ 0%nat := alice b ]};
     games := {[ 0%nat := lucky_wheel; 1%nat := closed_draw ]};
     transactions := []; tickets := []; timers := [] |}.

(** A deposit of 100, a withdrawal request of 100, then three tickets at 30:
    the balance is 10 when the settlement is due. *)
Definition spent_before_settlement : list Event :=
  [ Deposit (Some 0%nat) 100 "PSP-1" 1;
    Withdraw (Some 0%nat) 100 "0700000000" "k3j9x0q1z" 2;
    PurchaseTicket (Some 0%nat) (id_of 0%nat) (Some 3) "a1b2c3d4e" numbered_codes 3 ].

(** A deposit of 100, a withdrawal request of 50, then a deposit of 30: the
    balance is 130 when the settlement is due. *)
Definition funded_before_settlement : list Event :=
  [ Deposit (Some 0%nat) 100 "PSP-1" 1;
    Withdraw (Some 0%nat) 50 "0700000000" "k3j9x0q1z" 2;
    Deposit (Some 0%nat) 30 "PSP-2" 3 ].

(** A deposit, a withdrawal and its settlement, a purchase and a spin that
    wins (index 1 of 3), with requests in between that end in "Internal
    server error" without an unrecorded balance write: a withdrawal whose
    identifier is already in the log, a spin on the game without prizes, a
    purchase with a [gameId] that does not cast, and a purchase of two
    tickets that draws the same code twice. *)
Definition busy_day : list Event :=
  [ Deposit (Some 0%nat) 160 "PSP-1" 1;
    Withdraw (Some 0%nat) 40 "0700000000" "k3j9x0q1z" 2;
    Withdraw (Some 0%nat) 10 "0700000000" "k3j9x0q1z" 3;
    TimerFires;
    SpinWheel (Some 0%nat) (id_of 1%nat) (1 # 2) "b2c3d4e5f" 4;
    PurchaseTicket (Some 0%nat) id_invalid (Some 1) "c3d4e5f6g" numbered_codes 5;
    PurchaseTicket (Some 0%nat) (id_of 0%nat) (Some 2) "a1b2c3d4e" repeated_code 6;
    SpinWheel (Some 0%nat) (id_of 0%nat) (1 # 2) "f5g6h7i8j" 7 ].

(** Two registrations around a deposit, then a withdrawal and its
    settlement. *)
Definition registrations_day : list Call :=
  [ Register None "alice" "alice@example.com" "h:secret" "0700000000";
    Ledger (Deposit (Some 0%nat) 100 "PSP-1" 1);
    Register None "bob" "bob@example.com" "h:hidden" "0722222222";
    Ledger (Withdraw (Some 0%nat) 40 "0700000000" "k3j9x0q1z" 2);
    Ledger TimerFires ].

(** A deposit of 100 and a withdrawal request of 50 whose identifier is
    [wd_k3j9x0q1z]. *)
Definition one_withdrawal : list Event :=
  [ Deposit (Some 0%nat) 100 "PSP-1" 1;
    Withdraw (Some 0%nat) 50 "0700000000" "k3j9x0q1z" 2 ].

(** ** Handlers that overlap *)

(** Two deposit requests of one user, the second served while the first
    waits for [User.findById]: each handler has loaded its own document
    before the other saves, and each then runs on as [post_deposit] does.
    [run] has no such schedule. *)
Definition overlapping_deposits (uid : ObjectId) (amount1 amount2 : Z)
    (transactionId1 transactionId2 : string) (now : Z) : Route unit :=
  let* found1 := User_findById uid in
  let* found2 := User_findById uid in
  match found1, found2 with
  | Some user1, Some user2 =>
      let user1 := assign_balance (balance (user_doc user1) + amount1) user1 in
      let* user1 := User_save user1 in
      let user2 := assign_balance (balance (user_doc user2) + amount2) user2 in
      let* user2 := User_save user2 in
      let* _ := Transaction_insert (deposit_record (user_id user1) amount1 transactionId1 now) in
      let* _ := Transaction_insert (deposit_record (user_id user2) amount2 transactionId2 now) in
      ret tt
  | _, _ => ret tt
  end.

(** * Properties *)

(** Closes a goal about sample data by evaluation, once the stored values its
    hypotheses name are known. *)
Ltac known_values :=
  repeat match goal with
         | H : @lookup _ _ _ _ _ _ = Some _ |- _ =>
             vm_compute in H; first [discriminate H | injection H as <-]
         end;
  repeat match goal with
         | H : array_get _ _ = Some _ |- _ =>
             vm_compute in H; first [discriminate H | injection H as <-]
         end.

Ltac not_listed H :=
  repeat (apply elem_of_cons in H as [H|H]; [discriminate H|]);
  by apply elem_of_nil in H.

Ltac evaluated :=
  intros;
  first [ exact I | reflexivity | discriminate
        | match goal with H : list_elem_of _ _ |- _ => not_listed H end ].

Ltac by_evaluation :=
  intros; known_values; vm_compute; intros;
  repeat match goal with
         | H : Some _ = Some _ |- _ => injection H as <-
         | H : None = Some _ |- _ => discriminate H
         end;
  vm_compute; repeat (apply conj); evaluated.

Ltac route_unfold :=
  unfold post_deposit, post_withdraw, post_tickets_purchase, post_games_spin,
    get_transactions, requireAuth, try_catch, bind, ret, respond, throw,
    User_findById, Game_findById, setTimeout in *.

Lemma append_not_empty (p rnd : string) : p ≠ EmptyString → p +:+ rnd ≠ EmptyString.
Proof. destruct p; [congruence | discriminate]. Qed.

Lemma initial_one_account : initial (one_account 0).
Proof.
  repeat split. intros uid u Hu. simpl in Hu.
  apply lookup_singleton_Some in Hu as [_ <-]. reflexivity.
Qed.

(** ** The record store *)

Lemma Transaction_insert_accepted (t : Transaction) (s : State) :
  transactionId t ≠ EmptyString →
  transactionId t ∉ transactionId <$> transactions s →
  Transaction_insert t s =
    (with_transactions (λ log, log ++ [t]) s,
     Value {| transaction_id := length (transactions s); transaction_doc := t;
              status_modified := false |}).
Proof.
  intros Hne Hfresh. unfold Transaction_insert.
  rewrite (decide_False (P := transactionId t = EmptyString)) by done.
  by rewrite decide_False.
Qed.

Lemma Transaction_insert_rejected (t : Transaction) (s : State) :
  transactionId t = EmptyString ∨ transactionId t ∈ transactionId <$> transactions s →
  Transaction_insert t s = (s, Thrown).
Proof.
  intros H. unfold Transaction_insert.
  destruct (decide (transactionId t = EmptyString)); [done|].
  destruct H; [done|]. by rewrite decide_True.
Qed.

Lemma User_save_modified (d : UserDoc) (u : User) (s : State) :
  balance_modified d = true →
  users s !! user_id d = Some u →
  User_save d s =
    (with_users (insert (user_id d) (set_balance (balance (user_doc d)) u)) s,
     Value {| user_id := user_id d; user_doc := user_doc d; balance_modified := false |}).
Proof. intros Hm Hu. unfold User_save. by rewrite Hm, Hu. Qed.

Lemma User_save_unmodified (d : UserDoc) (s : State) :
  balance_modified d = false → User_save d s = (s, Value d).
Proof. intros Hm. unfold User_save. by rewrite Hm. Qed.

(** ** [/api/withdraw]: the request *)

Section withdraw_request.
Context (s : State) (uid : ObjectId) (u : User).
Context (amt : Z) (phone rnd : string) (now : Z).
Hypothesis Huser : users s !! uid = Some u.

Lemma withdraw_insufficient :
  balance u < amt →
  post_withdraw (Some uid) amt phone rnd now s = (s, InsufficientBalance).
Proof.
  intros Hlt. route_unfold. rewrite Huser. simpl.
  apply Z.ltb_lt in Hlt. by rewrite Hlt.
Qed.

Lemma withdraw_accepted :
  amt ≤ balance u →
  "wd_" +:+ rnd ∉ transactionId <$> transactions s →
  post_withdraw (Some uid) amt phone rnd now s =
    (queued uid u amt phone rnd now s, WithdrawOk ("wd_" +:+ rnd)).
Proof.
  intros Hle Hfresh. route_unfold. rewrite Huser. simpl.
  apply Z.ltb_ge in Hle. rewrite Hle.
  rewrite Transaction_insert_accepted; [done | by apply append_not_empty | done].
Qed.

Lemma withdraw_collision :
  amt ≤ balance u →
  "wd_" +:+ rnd ∈ identifiers s →
  post_withdraw (Some uid) amt phone rnd now s = (s, InternalServerError).
Proof.
  intros Hle Hin. route_unfold. rewrite Huser. simpl.
  apply Z.ltb_ge in Hle. rewrite Hle.
  by rewrite Transaction_insert_rejected by (right; exact Hin).
Qed.

(** C8, as the route has it: a withdrawal request of a stored user against a
    balance below the amount is refused with "Insufficient balance" and
    leaves the whole state as it was (no transaction record, same balance).
    Otherwise, when the log does not yet hold the generated identifier, a
    [pending] withdrawal record is appended, its identifier is returned at
    once, and the settlement is only queued: the balance is not yet touched.
    When the log already holds the identifier, the request ends in
    "Internal server error" and the state is as it was. *)
Theorem withdraw_request_outcome :
  (balance u < amt →
     post_withdraw (Some uid) amt phone rnd now s = (s, InsufficientBalance)) ∧
  (amt ≤ balance u →
   "wd_" +:+ rnd ∉ identifiers s →
     ∃ s', post_withdraw (Some uid) amt phone rnd now s
             = (s', WithdrawOk ("wd_" +:+ rnd)) ∧
           transactions s' = transactions s ++ [withdrawal_record uid amt phone rnd now] ∧
           status (withdrawal_record uid amt phone rnd now) = pending ∧
           type (withdrawal_record uid amt phone rnd now) = withdrawal ∧
           users s' = users s ∧
           timers s' = timers s ++ [withdrawal_callback s uid u amt phone rnd now] ∧
           tickets s' = tickets s) ∧
  (amt ≤ balance u →
   "wd_" +:+ rnd ∈ identifiers s →
     post_withdraw (Some uid) amt phone rnd now s = (s, InternalServerError)).
Proof.
  split_and!; [apply withdraw_insufficient| |apply withdraw_collision].
  intros Hle Hfresh. eexists. split; [by apply withdraw_accepted|]. done.
Qed.
End withdraw_request.

Lemma withdraw_request_outcome_witness :
  post_withdraw (Some 0%nat) 60 "0700" "k3j9x0q1z" 7 (one_account 50)
    = (one_account 50, InsufficientBalance) ∧
  ∃ s', post_withdraw (Some 0%nat) 60 "0700" "k3j9x0q1z" 7 (one_account 100)
          = (s', WithdrawOk "wd_k3j9x0q1z") ∧
        (status <$> transactions s') = [pending] ∧
        users s' = users (one_account 100).
Proof.
  split.
  - apply (withdraw_request_outcome (one_account 50) 0%nat (alice 50) 60 "0700"
             "k3j9x0q1z" 7 eq_refl). simpl. lia.
  - destruct (withdraw_request_outcome (one_account 100) 0%nat (alice 100) 60 "0700"
                "k3j9x0q1z" 7 eq_refl) as (_ & H & _).
    destruct H as (s' & Hs' & Hlog & _ & _ & Hu & _).
    + simpl. lia.
    + simpl. apply not_elem_of_nil.
    + exists s'. split; [exact Hs'|]. split; [|exact Hu]. rewrite Hlog. reflexivity.
Defined.

(** C8, as stated, fails: with 100 on the account and [wd_k3j9x0q1z] in the
    log, a request for 20 that generates the same identifier creates no
    record and returns no identifier; it ends in "Internal server error". *)
Lemma withdraw_collision_refused :
  let s := run one_withdrawal (one_account 0) in
  reachable s ∧
  users s !! 0%nat = Some (alice 100) ∧
  ¬ withdraw_accepts s 0%nat 20 "0700000000" "k3j9x0q1z" 3 ∧
  post_withdraw (Some 0%nat) 20 "0700000000" "k3j9x0q1z" 3 s = (s, InternalServerError).
Proof.
  split_and!.
  - exists (one_account 0), one_withdrawal. split; [apply initial_one_account|reflexivity].
  - reflexivity.
  - intros Hclaim. destruct (Hclaim (alice 100)) as (s' & tx & Hrun & _);
      [reflexivity|simpl; lia|].
    vm_compute in Hrun. discriminate Hrun.
  - by vm_compute.
Qed.

(** ** [/api/games/spin] *)

Lemma assign_balance_changed (b : Z) (d : UserDoc) :
  b ≠ balance (user_doc d) →
  assign_balance b d =
    {| user_id := user_id d; user_doc := set_balance b (user_doc d);
       balance_modified := true |}.
Proof.
  intros Hne. unfold assign_balance. f_equal.
  apply Z.eqb_neq in Hne. rewrite Hne. apply orb_true_r.
Qed.

Lemma array_get_nil {A} (i : Z) : array_get (@nil A) i = None.
Proof. unfold array_get. by destruct (i <? 0). Qed.

Lemma random_index_0 (r : Q) : random_index r 0 = 0.
Proof. unfold random_index. simpl. rewrite Z.mul_0_r. reflexivity. Qed.

Section spin.
Context (s : State) (uid gid : ObjectId) (u : User) (g : Game).
Context (r : Q) (rnd : string) (now : Z).
Hypothesis Huser : users s !! uid = Some u.
Hypothesis Hgame : games s !! gid = Some g.

(** C5, as the route has it: when the drawn entry has a positive amount, the
    spin adds exactly that amount to the user's balance (balance, amount and
    sum being integers on which the addition of the code is exact). When the
    log accepts the generated identifier, it appends a [completed]
    [prize_won] record whose description carries the drawn position and
    answers with the drawn amount, the drawn position and the resulting
    balance. When the identifier is already in the log, nothing is recorded
    and the answer is "Internal server error": the credit stays. *)
Theorem spin_prize_credited (p : Prize) :
  array_get (prizes g) (random_index r (length (prizes g))) = Some p →
  0 < prize_amount p →
  safe (balance u) → safe (prize_amount p) → safe (balance u + prize_amount p) →
  ∃ s' res,
    post_games_spin (Some uid) (id_of gid) r rnd now s = (s', res) ∧
    users s' = <[uid := set_balance (balance u + prize_amount p) u]> (users s) ∧
    tickets s' = tickets s ∧ timers s' = timers s ∧ games s' = games s ∧
    ("win_" +:+ rnd ∉ identifiers s →
       res = SpinOk (prize_amount p) (position p) (balance u + prize_amount p) ∧
       transactions s' = transactions s ++ [prize_record uid g p rnd now]) ∧
    ("win_" +:+ rnd ∈ identifiers s →
       res = InternalServerError ∧ transactions s' = transactions s).
Proof.
  intros Hdraw Hpos _ _ _. route_unfold. rewrite Huser. simpl. rewrite Hgame. simpl.
  rewrite Hdraw. apply Z.ltb_lt in Hpos as Hpos'. rewrite Hpos'.
  rewrite assign_balance_changed by (simpl; lia).
  erewrite User_save_modified by (done || exact Huser). simpl.
  destruct (decide ("win_" +:+ rnd ∈ identifiers s)) as [Hin|Hfresh].
  - rewrite Transaction_insert_rejected by (right; exact Hin).
    eexists _, _. split; [reflexivity|]. by split_and!.
  - rewrite Transaction_insert_accepted; [| by apply append_not_empty | done].
    eexists _, _. split; [reflexivity|]. by split_and!.
Qed.

(** C10: the route looks at neither the game's type nor its [active] flag;
    on a game with no prizes the drawn index is 0, the entry at that index
    is absent, reading its amount throws, and the request ends in the
    generic "Internal server error" (HTTP 500) with the state untouched. *)
Theorem spin_without_prizes :
  prizes g = [] →
  random_index r (length (prizes g)) = 0 ∧
  array_get (prizes g) 0 = None ∧
  post_games_spin (Some uid) (id_of gid) r rnd now s = (s, Failure 500 "Internal server error").
Proof.
  intros Hnil. rewrite Hnil. simpl. split; [apply random_index_0|].
  split; [apply array_get_nil|].
  route_unfold. rewrite Huser. simpl. rewrite Hgame. simpl. rewrite Hnil.
  by rewrite array_get_nil.
Qed.
End spin.

Lemma spin_prize_credited_witness :
  ∃ s',
    post_games_spin (Some 0%nat) (id_of 0%nat) (1 # 2) "k3j9x0q1z" 7 (one_account 100)
      = (s', SpinOk 100 1 200) ∧
    users s' !! 0%nat = Some (alice 200) ∧
    (type <$> transactions s') = [prize_won].
Proof.
  destruct (spin_prize_credited (one_account 100) 0%nat 0%nat (alice 100) lucky_wheel
              (1 # 2) "k3j9x0q1z" 7 eq_refl eq_refl
              {| position := 1; prize_amount := 100 |})
    as (s' & res & Hs' & Hu & _ & _ & _ & Hok & _).
  - reflexivity.
  - simpl. lia.
  - by vm_compute.
  - by vm_compute.
  - by vm_compute.
  - destruct Hok as [-> Hlog]; [apply not_elem_of_nil|].
    exists s'. split; [exact Hs'|]. split.
    + rewrite Hu. reflexivity.
    + rewrite Hlog. reflexivity.
Defined.

(** C5, as stated, fails. The identifier of a deposit is chosen by the
    client: after a deposit recorded under [win_k3j9x0q1z], a spin that
    draws the prize of 100 and generates that identifier credits the
    balance, records nothing and answers "Internal server error". *)
Lemma spin_prize_unrecorded :
  let s := run [ Deposit (Some 0%nat) 100 "win_k3j9x0q1z" 1 ] (one_account 0) in
  reachable s ∧
  ¬ spin_credits s 0%nat 0%nat (1 # 2) "k3j9x0q1z" 7 ∧
  ∃ s', post_games_spin (Some 0%nat) (id_of 0%nat) (1 # 2) "k3j9x0q1z" 7 s
          = (s', InternalServerError) ∧
        users s' !! 0%nat = Some (alice 200) ∧
        transactions s' = transactions s.
Proof.
  split_and!.
  - exists (one_account 0), [ Deposit (Some 0%nat) 100 "win_k3j9x0q1z" 1 ].
    split; [apply initial_one_account|reflexivity].
  - intros Hclaim.
    destruct (Hclaim (alice 100) lucky_wheel {| position := 1; prize_amount := 100 |})
      as (s' & Hrun & _); [reflexivity..|simpl; lia|].
    vm_compute in Hrun. discriminate Hrun.
  - eexists. split; [by vm_compute|]. split; reflexivity.
Qed.

Lemma spin_without_prizes_witness :
  post_games_spin (Some 0%nat) (id_of 1%nat) (1 # 2) "k3j9x0q1z" 7 (one_account 100)
    = (one_account 100, Failure 500 "Internal server error").
Proof.
  apply (spin_without_prizes (one_account 100) 0%nat 1%nat (alice 100) closed_draw
           (1 # 2) "k3j9x0q1z" 7 eq_refl eq_refl eq_refl).
Defined.

(** ** [/api/transactions] *)


(** ** Writes to the state *)

Lemma set_balance_same (u : User) : set_balance (balance u) u = u.
Proof. by destruct u. Qed.

Lemma with_users_id (s : State) (uid : ObjectId) (u : User) :
  users s !! uid = Some u → with_users (insert uid u) s = s.
Proof.
  intros Hu. destruct s as [us gs log tks tms]. unfold with_users. simpl in *.
  f_equal. by apply insert_id.
Qed.

Lemma with_tickets_nil (s : State) : with_tickets (λ all, all ++ []) s = s.
Proof. destruct s. unfold with_tickets. simpl. by rewrite app_nil_r. Qed.

Lemma with_transactions_nil (s : State) : with_transactions (λ log, log ++ []) s = s.
Proof. destruct s. unfold with_transactions. simpl. by rewrite app_nil_r. Qed.

Lemma with_tickets_app (s : State) (l1 l2 : list Ticket) :
  with_tickets (λ all, all ++ l2) (with_tickets (λ all, all ++ l1) s)
  = with_tickets (λ all, all ++ (l1 ++ l2)) s.
Proof. destruct s. unfold with_tickets. simpl. by rewrite app_assoc. Qed.

(** Assigning a balance to a freshly loaded document and saving it stores
    that balance, whether or not it differs from the loaded one. *)
Lemma save_assigned (s : State) (uid : ObjectId) (u : User) (b : Z) :
  users s !! uid = Some u →
  User_save (assign_balance b {| user_id := uid; user_doc := u; balance_modified := false |}) s
  = (with_users (insert uid (set_balance b u)) s,
     Value {| user_id := uid; user_doc := set_balance b u; balance_modified := false |}).
Proof.
  intros Hu. destruct (decide (b = balance u)) as [->|Hne].
  - rewrite User_save_unmodified.
    + rewrite set_balance_same, with_users_id by done.
      unfold assign_balance. simpl. by rewrite Z.eqb_refl, set_balance_same.
    + unfold assign_balance. simpl. by rewrite Z.eqb_refl.
  - rewrite assign_balance_changed by done. simpl.
    by erewrite User_save_modified.
Qed.

Lemma Ticket_insert_cases (t : Ticket) (s : State) :
  ticketCode t ≠ EmptyString →
  (ticketCode t ∈ ticketCode <$> tickets s ∧ Ticket_insert t s = (s, Thrown)) ∨
  ((ticketCode t ∉ ticketCode <$> tickets s) ∧
   Ticket_insert t s = (with_tickets (λ all, all ++ [t]) s, Value t)).
Proof.
  intros Hne. unfold Ticket_insert.
  rewrite (decide_False (P := ticketCode t = EmptyString)) by done.
  destruct (decide (ticketCode t ∈ ticketCode <$> tickets s)); [by left | by right].
Qed.

Lemma create_tickets_effect (n i : nat) (codes : nat → string) (uid gid : ObjectId)
    (dd now : Z) (made : list Ticket) (s : State) :
  ∃ minted o,
    create_tickets n i codes uid gid dd now made s
      = (with_tickets (λ all, all ++ minted) s, o) ∧
    match o with
    | Value l => l = made ++ minted ∧ length minted = n
    | Thrown => (length minted < n)%nat
    | Responded _ => False
    end.
Proof.
  revert i made s. induction n as [|n IH]; intros i made s.
  - exists [], (Value made). simpl. unfold ret.
    by rewrite with_tickets_nil, app_nil_r.
  - simpl. unfold bind.
    match goal with |- context [Ticket_insert ?t s] => set (ticket := t) end.
    destruct (Ticket_insert_cases ticket s) as [[_ ->]|[_ ->]]; [done| |].
    + exists [], Thrown. rewrite with_tickets_nil. split; [done|simpl; lia].
    + destruct (IH (S i) (made ++ [ticket]) (with_tickets (λ all, all ++ [ticket]) s))
        as (minted & o & Heq & Ho).
      exists (ticket :: minted), o. rewrite Heq, with_tickets_app. split; [done|].
      destruct o as [l| |]; simpl; [|done|lia].
      destruct Ho as [-> <-]. by rewrite <- app_assoc.
Qed.

(** Without an [_id] to look for, a purchase and a spin stop at the game:
    "Game not found" for no [gameId], the [CastError] caught as
    "Internal server error" for one that does not cast. *)
Lemma purchase_no_id (s : State) (uid : ObjectId) (gameId : IdParam) (quantity : option Z)
    (rnd : string) (codes : nat → string) (now : Z) :
  gameId = id_null ∨ gameId = id_invalid →
  post_tickets_purchase (Some uid) gameId quantity rnd codes now s =
    (s, match users s !! uid with
        | None => UserNotFound
        | Some _ => if decide (gameId = id_null) then GameNotFound else InternalServerError
        end).
Proof.
  intros [-> | ->]; route_unfold; by destruct (users s !! uid).
Qed.

Lemma spin_no_id (s : State) (uid : ObjectId) (gameId : IdParam) (r : Q)
    (rnd : string) (now : Z) :
  gameId = id_null ∨ gameId = id_invalid →
  post_games_spin (Some uid) gameId r rnd now s =
    (s, match users s !! uid with
        | None => UserNotFound
        | Some _ => if decide (gameId = id_null) then GameNotFound else InternalServerError
        end).
Proof.
  intros [-> | ->]; route_unfold; by destruct (users s !! uid).
Qed.

(** ** [/api/tickets/purchase] *)

Section purchase.
Context (s : State) (uid gid : ObjectId).
Context (quantity : option Z) (rnd : string) (codes : nat → string) (now : Z).

(** Every way the route can end. *)
Lemma purchase_cases (s' : State) (res : Response) :
  post_tickets_purchase (Some uid) (id_of gid) quantity rnd codes now s = (s', res) →
  (s' = s ∧
   ((users s !! uid = None ∧ res = UserNotFound) ∨
    (games s !! gid = None ∧ res = GameNotFound) ∨
    (∃ u g, users s !! uid = Some u ∧ games s !! gid = Some g ∧
            balance u < price g * (default 1 quantity) ∧ res = InsufficientBalance))) ∨
  (∃ u g recorded minted,
     users s !! uid = Some u ∧ games s !! gid = Some g ∧
     price g * (default 1 quantity) ≤ balance u ∧
     s' = written uid u (- (price g * (default 1 quantity))) recorded minted s ∧
     ((recorded = [] ∧ minted = [] ∧ res = InternalServerError ∧
       "tick_" +:+ rnd ∈ identifiers s) ∨
      (recorded = [purchase_record uid g (default 1 quantity) rnd now] ∧ ("tick_" +:+ rnd ∉ identifiers s) ∧
       (length minted < Z.to_nat (default 1%Z quantity))%nat ∧ res = InternalServerError) ∨
      (recorded = [purchase_record uid g (default 1 quantity) rnd now] ∧ ("tick_" +:+ rnd ∉ identifiers s) ∧
       length minted = Z.to_nat (default 1%Z quantity) ∧
       res = PurchaseOk minted (balance u - price g * (default 1 quantity))))).
Proof.
  route_unfold.
  destruct (users s !! uid) as [u|] eqn:Hu; simpl;
    [|intros [= <- <-]; left; auto].
  destruct (games s !! gid) as [g|] eqn:Hg; simpl;
    [|intros [= <- <-]; left; auto].
  destruct (balance u <? price g * (default 1 quantity)) eqn:Hlt.
  { apply Z.ltb_lt in Hlt. intros [= <- <-]. left. split; [done|].
    right; right. by exists u, g. }
  apply Z.ltb_ge in Hlt. rewrite save_assigned by done. simpl.
  intros Hrun. right. exists u, g.
  set (s1 := with_users _ s) in *.
  destruct (decide ("tick_" +:+ rnd ∈ identifiers s)) as [Hin|Hfresh].
  - rewrite Transaction_insert_rejected in Hrun by (right; exact Hin).
    injection Hrun as <- <-. exists [], []. repeat split; [done..| |by left].
    unfold written. by rewrite with_transactions_nil, with_tickets_nil.
  - rewrite Transaction_insert_accepted in Hrun;
      [|by apply append_not_empty|exact Hfresh].
    destruct (create_tickets_effect (Z.to_nat (default 1%Z quantity)) 0 codes uid gid
                (now + durationDays g * day_ms) now []
                (with_transactions (λ log, log ++ [purchase_record uid g (default 1 quantity) rnd now]) s1))
      as (minted & o & Heq & Ho).
    fold (purchase_record uid g (default 1 quantity) rnd now) in Hrun, Heq.
    rewrite Heq in Hrun.
    exists [purchase_record uid g (default 1 quantity) rnd now], minted. repeat split; [done..| |].
    + by destruct o; injection Hrun as <- _.
    + destruct o as [l| |]; [|done|]; injection Hrun as _ <-.
      * destruct Ho as [-> Hlen]. right; right. done.
      * right; left. done.
Qed.
End purchase.



Section purchase_results.
Context (s : State) (uid : ObjectId) (gameId : IdParam).
Context (quantity : option Z) (rnd : string) (codes : nat → string) (now : Z).

End purchase_results.



(** A request whose [gameId] does not cast is answered 500 with nothing
    written, and one without a [gameId] is answered "Game not found". *)
Lemma purchase_malformed_id :
  post_tickets_purchase (Some 0%nat) id_invalid (Some 2) "k3j9x0q1z" numbered_codes 7
    (one_account 100) = (one_account 100, InternalServerError) ∧
  post_tickets_purchase (Some 0%nat) id_null (Some 2) "k3j9x0q1z" numbered_codes 7
    (one_account 100) = (one_account 100, GameNotFound).
Proof. split; reflexivity. Qed.


Section purchase_checks.
Context (s : State) (uid gid : ObjectId) (u : User) (g : Game).
Context (q : Z) (rnd : string) (codes : nat → string) (now : Z).
Hypothesis Huser : users s !! uid = Some u.
Hypothesis Hgame : games s !! gid = Some g.

End purchase_checks.



(** ** What each request does to the state *)

Lemma written_nothing (s : State) (uid : ObjectId) (u : User) (b : Z) :
  with_users (insert uid (set_balance (balance u + b) u)) s = written uid u b [] [] s.
Proof. unfold written. by rewrite with_transactions_nil, with_tickets_nil. Qed.

Lemma written_record (s : State) (uid : ObjectId) (u : User) (b : Z) (t : Transaction) :
  with_transactions (λ log, log ++ [t])
    (with_users (insert uid (set_balance (balance u + b) u)) s)
  = written uid u b [t] [] s.
Proof. unfold written. by rewrite with_tickets_nil. Qed.

Lemma deposit_cases (s : State) (uid : ObjectId) (a : Z) (tid : string) (now : Z)
    (s' : State) (res : Response) :
  post_deposit (Some uid) (Some a) tid now s = (s', res) →
  (s' = s ∧ users s !! uid = None ∧ res = UserNotFound) ∨
  (∃ u, users s !! uid = Some u ∧
     ((s' = written uid u a [] [] s ∧ res = InternalServerError ∧
       (tid = EmptyString ∨ tid ∈ identifiers s)) ∨
      (s' = written uid u a [deposit_record uid a tid now] [] s ∧
       tid ≠ EmptyString ∧ (tid ∉ identifiers s) ∧ res = DepositOk (balance u + a)))).
Proof.
  route_unfold.
  destruct (users s !! uid) as [u|] eqn:Hu; simpl; [|intros [= <- <-]; left; auto].
  rewrite save_assigned by done. simpl. intros Hrun. right. exists u. split; [done|].
  destruct (decide (tid = EmptyString ∨ tid ∈ identifiers s)) as [Hbad|Hgood].
  - rewrite Transaction_insert_rejected in Hrun by exact Hbad.
    injection Hrun as <- <-. left. by rewrite written_nothing.
  - assert (tid ≠ EmptyString ∧ tid ∉ identifiers s) as [Hne Hfresh]
      by (split; intros ?; apply Hgood; auto).
    rewrite Transaction_insert_accepted in Hrun by done.
    injection Hrun as <- <-. right. by rewrite written_record.
Qed.

Lemma spin_cases (s : State) (uid gid : ObjectId) (r : Q) (rnd : string) (now : Z)
    (s' : State) (res : Response) :
  post_games_spin (Some uid) (id_of gid) r rnd now s = (s', res) →
  s' = s ∨
  (∃ u g p, users s !! uid = Some u ∧ games s !! gid = Some g ∧ 0 < prize_amount p ∧
     array_get (prizes g) (random_index r (length (prizes g))) = Some p ∧
     ((s' = written uid u (prize_amount p) [] [] s ∧ res = InternalServerError ∧
       "win_" +:+ rnd ∈ identifiers s) ∨
      (s' = written uid u (prize_amount p) [prize_record uid g p rnd now] [] s ∧
       ("win_" +:+ rnd ∉ identifiers s) ∧
       res = SpinOk (prize_amount p) (position p) (balance u + prize_amount p)))).
Proof.
  route_unfold.
  destruct (users s !! uid) as [u|] eqn:Hu; simpl; [|intros [= <- <-]; by left].
  destruct (games s !! gid) as [g|] eqn:Hg; simpl; [|intros [= <- <-]; by left].
  destruct (array_get _ _) as [p|] eqn:Hdraw; [|intros [= <- <-]; by left].
  destruct (0 <? prize_amount p) eqn:Hpos; [|intros [= <- <-]; by left].
  apply Z.ltb_lt in Hpos. rewrite save_assigned by done. simpl.
  intros Hrun. right. exists u, g, p. repeat split; [done..|].
  destruct (decide ("win_" +:+ rnd ∈ identifiers s)) as [Hin|Hfresh].
  - rewrite Transaction_insert_rejected in Hrun by (right; exact Hin).
    injection Hrun as <- <-. left. by rewrite written_nothing.
  - rewrite Transaction_insert_accepted in Hrun; [|by apply append_not_empty|exact Hfresh].
    injection Hrun as <- <-. right. by rewrite written_record.
Qed.

Lemma withdraw_cases (s : State) (uid : ObjectId) (amt : Z) (phone rnd : string) (now : Z)
    (s' : State) (res : Response) :
  post_withdraw (Some uid) amt phone rnd now s = (s', res) →
  s' = s ∨
  (∃ u, users s !! uid = Some u ∧ amt ≤ balance u ∧ ("wd_" +:+ rnd ∉ identifiers s) ∧
     res = WithdrawOk ("wd_" +:+ rnd) ∧ s' = queued uid u amt phone rnd now s).
Proof.
  intros Hrun.
  destruct (users s !! uid) as [u|] eqn:Hu.
  - destruct (Z.lt_ge_cases (balance u) amt) as [Hlt|Hle].
    + rewrite (withdraw_insufficient s uid u amt phone rnd now Hu Hlt) in Hrun.
      injection Hrun as <- _. by left.
    + destruct (decide ("wd_" +:+ rnd ∈ identifiers s)) as [Hin|Hfresh].
      * revert Hrun. route_unfold. rewrite Hu. simpl.
        apply Z.ltb_ge in Hle. rewrite Hle.
        rewrite Transaction_insert_rejected by (right; exact Hin).
        intros [= <- _]. by left.
      * rewrite (withdraw_accepted s uid u amt phone rnd now Hu Hle Hfresh) in Hrun.
        injection Hrun as <- <-. right. by exists u.
  - revert Hrun. route_unfold. rewrite Hu. simpl. intros [= <- _]. by left.
Qed.

Lemma contribution_completed (uid : ObjectId) (t : Transaction) :
  userId t = uid → status t = completed →
  contribution uid t = if decide (is_credit t) then amount t else - amount t.
Proof. intros Hu Hs. unfold contribution. by rewrite decide_True. Qed.

(** Every request leaves the state as it was, or writes one balance and at
    most one [completed] record that accounts for the change, or queues a
    withdrawal. *)
Lemma request_effect (e : Event) (s s' : State) (res : Response) :
  handle e s = (s', Some res) →
  s' = s ∨
  (∃ uid u delta recorded minted,
     users s !! uid = Some u ∧ s' = written uid u delta recorded minted s ∧
     gain e u delta ∧
     ((recorded = [] ∧ res = InternalServerError) ∨
      (∃ t, recorded = [t] ∧ userId t = uid ∧ contribution uid t = delta ∧
            transactionId t ∉ identifiers s))) ∨
  (∃ uid u amt phone rnd now,
     users s !! uid = Some u ∧ amt ≤ balance u ∧ ("wd_" +:+ rnd ∉ identifiers s) ∧
     s' = queued uid u amt phone rnd now s).
Proof.
  destruct e as [session|session a tid now|session amt phone rnd now
                |session gid quantity rnd codes now|session gid r rnd now|]; simpl.
  - destruct session as [uid|]; intros [= <- _]; by left.
  - destruct (post_deposit session _ _ _ s) as [s1 res1] eqn:Hrun. intros [= <- <-].
    destruct session as [uid|]; [|injection Hrun as <- _; by left].
    apply deposit_cases in Hrun as [(-> & _)|(u & Hu & Hend)]; [by left|].
    right; left. exists uid, u, a.
    destruct Hend as [(-> & -> & _)|(-> & _ & Hfresh & _)].
    + exists [], []. repeat split; [done..|by left].
    + eexists [_], []. repeat split; [done..|]. right. eexists.
      split; [done|]. split; [done|]. split; [|done].
      by rewrite contribution_completed.
  - destruct (post_withdraw session _ _ _ _ s) as [s1 res1] eqn:Hrun. intros [= <- <-].
    destruct session as [uid|]; [|injection Hrun as <- _; by left].
    apply withdraw_cases in Hrun as [->|(u & Hu & Hle & Hfresh & _ & ->)]; [by left|].
    right; right. by exists uid, u, amt, phone, rnd, now.
  - destruct (post_tickets_purchase session _ _ _ _ _ s) as [s1 res1] eqn:Hrun. intros [= <- <-].
    destruct session as [uid|]; [|injection Hrun as <- _; by left].
    destruct gid as [gid| |];
      [|rewrite purchase_no_id in Hrun by auto; injection Hrun as <- _; by left..].
    apply purchase_cases in Hrun
      as [[-> _]|(u & g & recorded & minted & Hu & Hg & Hle & -> & Hend)]; [by left|].
    right; left. exists uid, u, (- (price g * default 1 quantity)), recorded, minted.
    repeat split; [done|simpl; lia|].
    destruct Hend as [(-> & _ & -> & _)|[(-> & Hfresh & _)|(-> & Hfresh & _)]];
      [by left| |]; right; eexists; (split; [done|]); (split; [done|]);
      (split; [|done]); by rewrite contribution_completed.
  - destruct (post_games_spin session _ _ _ _ s) as [s1 res1] eqn:Hrun. intros [= <- <-].
    destruct session as [uid|]; [|injection Hrun as <- _; by left].
    destruct gid as [gid| |];
      [|rewrite spin_no_id in Hrun by auto; injection Hrun as <- _; by left..].
    apply spin_cases in Hrun as [->|(u & g & p & Hu & Hg & Hpos & _ & Hend)]; [by left|].
    right; left. exists uid, u, (prize_amount p).
    destruct Hend as [(-> & -> & _)|(-> & Hfresh & _)].
    + exists [], []. repeat split; [done..|by left].
    + eexists [_], []. repeat split; [done..|]. right. eexists.
      split; [done|]. split; [done|]. split; [|done].
      by rewrite contribution_completed.
  - discriminate.
Qed.

(** ** What a settlement does to the state *)

Lemma timer_fires_effect (s : State) (t : Timer) (later : list Timer) :
  timers s = t :: later → timer_ok s t →
  ∃ u, users s !! user_id (timer_user t) = Some u ∧
       timer_fires s =
         with_users
           (λ us, if decide (timer_amount t = 0) then us
                  else <[user_id (timer_user t) :=
                           set_balance (balance (user_doc (timer_user t)) - timer_amount t) u]>
                         us)
           (with_transactions
              (alter (set_status completed) (transaction_id (timer_transaction t)))
              (with_timers (λ _, later) s)).
Proof.
  intros Htimers (Hclean & Hsaved & Hpending & _ & [u Hu] & tx & Htx & _).
  exists u. split; [done|].
  unfold timer_fires. rewrite Htimers. unfold settlement, bind.
  destruct t as [[i doc sm] [uid ud bm] amt ph]. simpl in *. subst sm bm.
  unfold Transaction_save. simpl. rewrite Hpending. simpl. rewrite Htx. simpl.
  destruct (decide (amt = 0)) as [->|Hne].
  - rewrite User_save_unmodified.
    + simpl. destruct s. reflexivity.
    + unfold assign_balance. simpl.
      replace (balance ud - 0) with (balance ud) by lia. by rewrite Z.eqb_refl.
  - rewrite assign_balance_changed by (simpl; lia). simpl.
    erewrite User_save_modified; [|done|exact Hu]. reflexivity.
Qed.

(** ** Pending settlements stay well-formed *)

Lemma handle_request (e : Event) (s : State) :
  (e = TimerFires ∧ step e s = timer_fires s) ∨
  (∃ res, handle e s = (step e s, Some res)).
Proof.
  unfold step. destruct e; simpl; [right..|by left].
  - destruct (get_transactions _ s); eauto.
  - destruct (post_deposit _ _ _ _ s); eauto.
  - destruct (post_withdraw _ _ _ _ _ s); eauto.
  - destruct (post_tickets_purchase _ _ _ _ _ _ s); eauto.
  - destruct (post_games_spin _ _ _ _ _ s); eauto.
Qed.

Lemma timer_ok_mono (s s' : State) (t : Timer) :
  timer_ok s t →
  (∀ uid, is_Some (users s !! uid) → is_Some (users s' !! uid)) →
  (∀ tx, transactions s !! transaction_id (timer_transaction t) = Some tx →
         transactions s' !! transaction_id (timer_transaction t) = Some tx) →
  timer_ok s' t.
Proof.
  intros (? & ? & ? & ? & Hu & tx & Htx & ?) Husers Hlog.
  repeat split; [done..|by apply Husers|]. exists tx. split; [by apply Hlog|done].
Qed.

Lemma timer_id_in_log (s : State) (t : Timer) :
  timer_ok s t → (transaction_id (timer_transaction t) < length (transactions s))%nat.
Proof. intros (_ & _ & _ & _ & _ & tx & Htx & _). by apply lookup_lt_Some in Htx. Qed.

Lemma timers_ok_written (s : State) uid u delta recorded minted :
  timers_ok s → timers_ok (written uid u delta recorded minted s).
Proof.
  intros [Hall Hdup]. split; [|done]. simpl.
  eapply Forall_impl; [exact Hall|]. intros t Ht.
  apply (timer_ok_mono s); [done| |].
  - intros uid' Hsome. simpl. apply lookup_insert_is_Some.
    destruct (decide (uid = uid')); auto.
  - intros tx Htx. simpl. by apply lookup_app_l_Some.
Qed.

Lemma timers_ok_queued (s : State) uid u amt phone rnd now :
  timers_ok s → users s !! uid = Some u → amt ≤ balance u →
  timers_ok (queued uid u amt phone rnd now s).
Proof.
  intros [Hall Hdup] Hu Hle. split; simpl.
  - apply Forall_app. split.
    + eapply Forall_impl; [exact Hall|]. intros t Ht.
      apply (timer_ok_mono s); [done|done|].
      intros tx Htx. simpl. by apply lookup_app_l_Some.
    + apply Forall_singleton. repeat split; simpl; [done|by eexists|].
      eexists. split; [apply list_lookup_middle; reflexivity|done].
  - rewrite fmap_app. apply NoDup_app. split; [done|]. split; [|apply NoDup_singleton].
    intros i Hi Hnew. apply list_elem_of_singleton in Hnew. simpl in Hnew. subst i.
    apply list_elem_of_fmap in Hi as (t & Hid & Ht).
    rewrite Forall_forall in Hall. apply Hall, timer_id_in_log in Ht. lia.
Qed.

Lemma timers_ok_fired (s : State) : timers_ok s → timers_ok (timer_fires s).
Proof.
  intros [Hall Hdup].
  destruct (timers s) as [|t later] eqn:Htimers.
  { unfold timer_fires. rewrite Htimers. split; by rewrite Htimers. }
  apply Forall_cons in Hall as [Ht Hlater].
  rewrite fmap_cons in Hdup. apply NoDup_cons in Hdup as [Hnotin Hdup].
  destruct (timer_fires_effect s t later Htimers Ht) as (u & Hu & ->).
  split; simpl; [|done].
  rewrite Forall_forall in Hlater. apply Forall_forall. intros t' Ht'.
  apply (timer_ok_mono s); [by apply Hlater| |].
  - intros uid' Hsome. simpl. destruct (decide (timer_amount t = 0)); [done|].
    apply lookup_insert_is_Some.
    destruct (decide (user_id (timer_user t) = uid')); auto.
  - intros tx Htx. simpl. rewrite list_lookup_alter_ne; [done|].
    intros Heq. apply Hnotin. apply list_elem_of_fmap. by exists t'.
Qed.

Lemma timers_ok_step (e : Event) (s : State) : timers_ok s → timers_ok (step e s).
Proof.
  intros Hok. destruct (handle_request e s) as [[_ ->]|[res Hrun]].
  { by apply timers_ok_fired. }
  apply request_effect in Hrun
    as [->|[(uid & u & delta & recorded & minted & _ & -> & _)
           |(uid & u & amt & phone & rnd & now & Hu & Hle & _ & ->)]].
  - done.
  - by apply timers_ok_written.
  - by apply timers_ok_queued.
Qed.

Lemma initial_timers_ok (s : State) : initial s → timers_ok s.
Proof. intros (_ & _ & Htimers & _). unfold timers_ok. rewrite Htimers. split; constructor. Qed.

Lemma timers_ok_run (es : list Event) (s : State) : timers_ok s → timers_ok (run es s).
Proof.
  revert s. induction es as [|e es IH]; intros s Hok; [done|].
  simpl. apply IH. by apply timers_ok_step.
Qed.

Lemma reachable_timers_ok (s : State) : reachable s → timers_ok s.
Proof. intros (s0 & es & Hinit & ->). by apply timers_ok_run, initial_timers_ok. Qed.

(** ** [/api/withdraw]: the settlement *)




(** ** Balances stay non-negative *)

Lemma balances_nonnegative_step (e : Event) (s : State) :
  timers_ok s → balances_nonnegative s → deposit_nonnegative e s →
  balances_nonnegative (step e s).
Proof.
  intros Hok Hs He. destruct (handle_request e s) as [[_ ->]|[res Hrun]].
  - destruct (timers s) as [|t later] eqn:Htimers.
    { unfold timer_fires. by rewrite Htimers. }
    destruct Hok as [Hall _]. rewrite Htimers in Hall. apply Forall_cons in Hall as [Ht _].
    destruct (timer_fires_effect s t later Htimers Ht) as (u & Hu & ->).
    destruct Ht as (_ & _ & _ & Hle & _).
    intros uid' u' Hu'. simpl in Hu'.
    destruct (decide (timer_amount t = 0)); [by eapply Hs|].
    apply lookup_insert_Some in Hu' as [[_ <-]|[_ Hu']]; [simpl; lia|by eapply Hs].
  - apply request_effect in Hrun
      as [->|[(uid & u & delta & recorded & minted & Hu & -> & Hgain & _)
             |(uid & u & amt & phone & rnd & now & _ & _ & _ & ->)]]; [done| |done].
    intros uid' u' Hu'. simpl in Hu'.
    apply lookup_insert_Some in Hu' as [[_ <-]|[_ Hu']]; [|by eapply Hs].
    apply Hs in Hu. destruct e; simpl in *; try done; lia.
Qed.

Lemma balances_nonnegative_run (es : list Event) (s : State) :
  timers_ok s → balances_nonnegative s → along deposit_nonnegative es s →
  balances_nonnegative (run es s).
Proof.
  revert s. induction es as [|e es IH]; intros s Hok Hs Hes; [done|].
  destruct Hes as [He Hes]. simpl. apply IH; [by apply timers_ok_step| |done].
  by apply balances_nonnegative_step.
Qed.

(** C2, as the routes have it: starting from accounts just created, after
    any sequence of listings, deposits, withdrawal requests, settlements,
    purchases and spins in which no deposit carries a negative amount, every
    user's balance is at least 0. *)
Theorem balance_nonnegative (s0 : State) (es : list Event) :
  initial s0 → along deposit_nonnegative es s0 → balances_nonnegative (run es s0).
Proof.
  intros Hinit Hes. apply balances_nonnegative_run; [by apply initial_timers_ok| |done].
  destruct Hinit as (_ & _ & _ & Hzero). intros uid u Hu. apply Hzero in Hu. lia.
Qed.

Lemma balance_nonnegative_witness :
  balances_nonnegative (run (spent_before_settlement ++ [TimerFires]) (one_account 0)) ∧
  users (run (spent_before_settlement ++ [TimerFires]) (one_account 0)) !! 0%nat
    = Some (alice 0).
Proof.
  split; [|by vm_compute].
  apply balance_nonnegative; [apply initial_one_account|].
  simpl. split_and!; (done || lia).
Defined.

(** C2, as stated, fails: the deposit route adds whatever amount it is sent,
    and a deposit of -150 into a new account leaves a balance of -150. *)
Lemma balance_goes_negative :
  ∃ s, reachable s ∧ ¬ balances_nonnegative s ∧ users s !! 0%nat = Some (alice (-150)).
Proof.
  exists (run [Deposit (Some 0%nat) (-150) "PSP-1" 1] (one_account 0)).
  split; [|split].
  - exists (one_account 0). eexists. split; [apply initial_one_account|reflexivity].
  - intros H. specialize (H 0%nat (alice (-150)) eq_refl). simpl in H. lia.
  - reflexivity.
Qed.

(** ** The balance against the log *)

Lemma total_app (l1 l2 : list Transaction) : total (l1 ++ l2) = total l1 + total l2.
Proof. induction l1 as [|t l1 IH]; simpl; [done|]. rewrite IH. lia. Qed.

Lemma net_app (uid : ObjectId) (l1 l2 : list Transaction) :
  net uid (l1 ++ l2) = net uid l1 + net uid l2.
Proof.
  unfold net, completed_credits, completed_debits.
  rewrite !filter_app, !total_app. lia.
Qed.

Lemma credit_or_debit (t : Transaction) : is_credit t ∨ is_debit t.
Proof. unfold is_credit, is_debit. destruct (type t); auto. Qed.

Lemma credit_not_debit (t : Transaction) : is_credit t → ¬ is_debit t.
Proof. unfold is_credit, is_debit. intros [H|H] [H'|H']; congruence. Qed.

Lemma net_singleton (uid : ObjectId) (t : Transaction) : net uid [t] = contribution uid t.
Proof.
  unfold net, completed_credits, completed_debits, contribution.
  rewrite !filter_cons, !filter_nil.
  destruct (decide (userId t = uid ∧ status t = completed)) as [[Hu Hs]|Hn].
  - destruct (decide (is_credit t)) as [Hc|Hc].
    + rewrite decide_True by done.
      rewrite decide_False by (intros (_ & _ & Hd); by apply (credit_not_debit t)).
      simpl. lia.
    + rewrite decide_False by (intros (_ & _ & Hd); done).
      rewrite decide_True by (destruct (credit_or_debit t); done).
      simpl. lia.
  - rewrite !decide_False by (intros (? & ? & _); by apply Hn). reflexivity.
Qed.

Lemma net_cons (uid : ObjectId) (t : Transaction) (l : list Transaction) :
  net uid (t :: l) = contribution uid t + net uid l.
Proof. by rewrite <- net_singleton, <- net_app. Qed.

Lemma net_alter (uid : ObjectId) (f : Transaction → Transaction) (i : nat)
    (log : list Transaction) (tx : Transaction) :
  log !! i = Some tx →
  net uid (alter f i log) = net uid log - contribution uid tx + contribution uid (f tx).
Proof.
  revert i. induction log as [|t log IH]; intros [|i] Hi; try done.
  - injection Hi as ->. change (alter f 0%nat (tx :: log)) with (f tx :: log).
    rewrite !net_cons. lia.
  - change (alter f (S i) (t :: log)) with (t :: alter f i log).
    rewrite !net_cons. rewrite (IH i Hi). lia.
Qed.

Lemma contribution_other (uid uid' : ObjectId) (t : Transaction) :
  userId t = uid → uid ≠ uid' → contribution uid' t = 0.
Proof.
  intros Hu Hne. unfold contribution. rewrite decide_False; [done|].
  intros [Hu' _]. congruence.
Qed.

Lemma contribution_pending (uid : ObjectId) (t : Transaction) :
  status t = pending → contribution uid t = 0.
Proof.
  intros Hs. unfold contribution. rewrite decide_False; [done|].
  intros [_ Hs']. congruence.
Qed.

(** A request whose balance write is accounted for leaves the state as it
    was, or writes one balance and the record that accounts for the change,
    or queues a withdrawal. *)
Lemma request_accounted (e : Event) (s s' : State) (res : Response) :
  handle e s = (s', Some res) → accounted e s →
  s' = s ∨
  (∃ uid u delta t minted,
     users s !! uid = Some u ∧ s' = written uid u delta [t] minted s ∧
     userId t = uid ∧ contribution uid t = delta) ∨
  (∃ uid u amt phone rnd now,
     users s !! uid = Some u ∧ s' = queued uid u amt phone rnd now s).
Proof.
  destruct e as [session|session a tid now|session amt phone rnd now
                |session gid quantity rnd codes now|session gid r rnd now|]; simpl.
  - destruct session as [uid|]; intros [= <- _]; by left.
  - destruct (post_deposit session _ _ _ s) as [s1 res1] eqn:Hrun. intros [= <- <-].
    destruct session as [uid|]; [|injection Hrun as <- _; by left].
    intros Hacc. apply deposit_cases in Hrun as [(-> & _)|(u & Hu & Hend)]; [by left|].
    destruct (Hacc (mk_is_Some _ _ Hu)) as [Hne Hfresh].
    destruct Hend as [(_ & _ & [?|?])|(-> & _ & _ & _)]; [done..|].
    right; left. eexists uid, u, a, _, []. split_and!; [done..|].
    by rewrite contribution_completed.
  - destruct (post_withdraw session _ _ _ _ s) as [s1 res1] eqn:Hrun. intros [= <- <-].
    destruct session as [uid|]; [|injection Hrun as <- _; by left].
    intros _. apply withdraw_cases in Hrun as [->|(u & Hu & _ & _ & _ & ->)]; [by left|].
    right; right. by exists uid, u, amt, phone, rnd, now.
  - destruct (post_tickets_purchase session _ _ _ _ _ s) as [s1 res1] eqn:Hrun.
    intros [= <- <-].
    destruct session as [uid|]; [|injection Hrun as <- _; by left].
    destruct gid as [gid| |];
      [|rewrite purchase_no_id in Hrun by auto; injection Hrun as <- _; by left..].
    intros Hacc. apply purchase_cases in Hrun
      as [[-> _]|(u & g & recorded & minted & Hu & Hg & Hle & -> & Hend)]; [by left|].
    specialize (Hacc u g Hu Hg Hle).
    destruct Hend as [(_ & _ & _ & ?)|[(-> & _)|(-> & _)]]; [done| |];
      right; left; eexists uid, u, _, _, minted; (split_and!; [done..|]);
      by rewrite contribution_completed.
  - destruct (post_games_spin session _ _ _ _ s) as [s1 res1] eqn:Hrun. intros [= <- <-].
    destruct session as [uid|]; [|injection Hrun as <- _; by left].
    destruct gid as [gid| |];
      [|rewrite spin_no_id in Hrun by auto; injection Hrun as <- _; by left..].
    intros Hacc.
    apply spin_cases in Hrun as [->|(u & g & p & Hu & Hg & Hpos & Hdraw & Hend)]; [by left|].
    specialize (Hacc u g p Hu Hg Hdraw Hpos).
    destruct Hend as [(_ & _ & ?)|(-> & _ & _)]; [done|].
    right; left. eexists uid, u, _, _, []. split_and!; [done..|].
    by rewrite contribution_completed.
  - discriminate.
Qed.

Lemma ledger_agrees_step (e : Event) (s : State) :
  timers_ok s → ledger_agrees s → accounted e s → ledger_agrees (step e s).
Proof.
  intros Hok Hs He. destruct (handle_request e s) as [[-> ->]|[res Hrun]].
  - destruct (timers s) as [|t later] eqn:Htimers.
    { unfold timer_fires. by rewrite Htimers. }
    destruct Hok as [Hall _]. rewrite Htimers in Hall. apply Forall_cons in Hall as [Ht _].
    destruct (timer_fires_effect s t later Htimers Ht) as (u & Hu & ->).
    destruct Ht as (_ & _ & _ & _ & _ & tx & Htx & Hpending & Htype & Hamt & Huid).
    simpl in He. rewrite Htimers in He. specialize (He u Hu).
    intros uid' u' Hu'. simpl in *. fold (net uid' (alter (set_status completed)
      (transaction_id (timer_transaction t)) (transactions s))).
    rewrite (net_alter _ _ _ _ tx Htx), (contribution_pending _ tx Hpending).
    destruct (decide (user_id (timer_user t) = uid')) as [<-|Hne].
    + rewrite contribution_completed by done.
      rewrite decide_False
        by (unfold is_credit; simpl; rewrite Htype; intros [?|?]; discriminate).
      simpl. rewrite Hamt. specialize (Hs _ _ Hu). fold (net (user_id (timer_user t))
        (transactions s)) in Hs.
      destruct (decide (timer_amount t = 0)) as [Hz|Hnz].
      * rewrite Hu in Hu'. injection Hu' as <-. lia.
      * rewrite lookup_insert_eq in Hu'. injection Hu' as <-. simpl. lia.
    + rewrite (contribution_other (user_id (timer_user t))) by done.
      assert (users s !! uid' = Some u') as Hold.
      { destruct (decide (timer_amount t = 0)); [done|]. by rewrite lookup_insert_ne in Hu'. }
      apply Hs in Hold. unfold net. lia.
  - apply request_accounted in Hrun
      as [->|[(uid & u & delta & t & minted & Hu & -> & Huid & Hdelta)
             |(uid & u & amt & phone & rnd & now & Hu & ->)]]; [done| | |done].
    + intros uid' u' Hu'. simpl in *. fold (net uid' (transactions s ++ [t])).
      rewrite net_app, net_singleton.
      apply lookup_insert_Some in Hu' as [[<- <-]|[Hne Hu']].
      * simpl. apply Hs in Hu. fold (net uid (transactions s)) in Hu. lia.
      * rewrite (contribution_other uid) by done. apply Hs in Hu'. unfold net. lia.
    + intros uid' u' Hu'. simpl in *.
      match goal with |- context [transactions s ++ [?t]] =>
        fold (net uid' (transactions s ++ [t])) end.
      rewrite net_app, net_singleton, contribution_pending by done.
      apply Hs in Hu'. unfold net. lia.
Qed.

Lemma ledger_agrees_run (es : list Event) (s : State) :
  timers_ok s → ledger_agrees s → along accounted es s → ledger_agrees (run es s).
Proof.
  revert s. induction es as [|e es IH]; intros s Hok Hs Hes; [done|].
  destruct Hes as [He Hes]. simpl. apply IH; [by apply timers_ok_step| |done].
  by apply ledger_agrees_step.
Qed.

(** C4, as the routes have it: starting from accounts just created, after
    any sequence of requests and settlements served one after the other, in
    which the numbers stay within the integers the code computes exactly,
    every request that writes a balance has its record accepted by the log,
    and every settlement finds the balance that its request read, every
    user's balance is the sum of the amounts of that user's [completed]
    deposits and prizes less the sum of the amounts of that user's
    [completed] withdrawals and purchases. *)
Theorem ledger_agrees_when_accounted (s0 : State) (es : list Event) :
  initial s0 → along exact es s0 → along accounted es s0 →
  ledger_agrees (run es s0).
Proof.
  intros Hinit _ Hes. apply ledger_agrees_run; [by apply initial_timers_ok| |done].
  destruct Hinit as (Hlog & _ & _ & Hzero). intros uid u Hu.
  rewrite Hlog. apply Hzero in Hu. rewrite Hu. reflexivity.
Qed.

Lemma ledger_agrees_when_accounted_witness :
  ledger_agrees (run busy_day (one_account 0)) ∧
  users (run busy_day (one_account 0)) !! 0%nat = Some (alice 160) ∧
  completed_credits 0%nat (transactions (run busy_day (one_account 0))) = 260 ∧
  completed_debits 0%nat (transactions (run busy_day (one_account 0))) = 100.
Proof.
  split; [|by vm_compute].
  apply ledger_agrees_when_accounted; [apply initial_one_account| |].
  - cbv [along busy_day exact]. split_and!; by_evaluation.
  - cbv [along busy_day accounted]. split_and!; by_evaluation.
Defined.

(** C4, as stated, fails. A settlement stores the balance its request read
    less the amount: after a deposit of 100, a withdrawal request of 50, a
    deposit of 30 and the settlement, the balance is 50 while the log holds
    130 of completed credits and 50 of completed debits. And a deposit whose
    identifier is already in the log adds to the balance without a record. *)
Lemma ledger_disagrees :
  (∃ s, reachable s ∧ ¬ ledger_agrees s ∧
        users s !! 0%nat = Some (alice 50) ∧
        completed_credits 0%nat (transactions s) = 130 ∧
        completed_debits 0%nat (transactions s) = 50) ∧
  (∃ s, reachable s ∧ ¬ ledger_agrees s ∧
        users s !! 0%nat = Some (alice 200) ∧
        completed_credits 0%nat (transactions s) = 100 ∧
        completed_debits 0%nat (transactions s) = 0).
Proof.
  split.
  - exists (run (funded_before_settlement ++ [TimerFires]) (one_account 0)).
    split; [|split; [|by vm_compute]].
    + exists (one_account 0). eexists. split; [apply initial_one_account|reflexivity].
    + intros H. specialize (H 0%nat (alice 50) eq_refl). vm_compute in H. discriminate H.
  - exists (run [Deposit (Some 0%nat) 100 "PSP-1" 1; Deposit (Some 0%nat) 100 "PSP-1" 2]
              (one_account 0)).
    split; [|split; [|by vm_compute]].
    + exists (one_account 0). eexists. split; [apply initial_one_account|reflexivity].
    + intros H. specialize (H 0%nat (alice 200) eq_refl). vm_compute in H. discriminate H.
Qed.

(** The equality is about requests served one after the other. When two
    deposits of 100 and of 50 overlap, the second save overwrites the first:
    both records are in the log, 150 of completed credits, and the balance
    is 50. *)
Lemma overlapping_deposits_lose_a_credit :
  let s := fst (overlapping_deposits 0%nat 100 50 "PSP-1" "PSP-2" 1 (one_account 0)) in
  ¬ ledger_agrees s ∧
  users s !! 0%nat = Some (alice 50) ∧
  completed_credits 0%nat (transactions s) = 150 ∧
  completed_debits 0%nat (transactions s) = 0.
Proof.
  split; [|by vm_compute].
  intros H. specialize (H 0%nat (alice 50) eq_refl). vm_compute in H. discriminate H.
Qed.

(** It is also about numbers the code adds exactly: the binary64 nearest to
    [2^53 + 1] is [2^53], so that a deposit of 1 on a balance of [2^53]
    stores the balance it found. *)
Lemma sum_beyond_safe_rounds :
  safe (2 ^ 53) ∧ ¬ safe (2 ^ 53 + 1) ∧ floor_binary64 (2 ^ 53 + 1) 1 = 2 ^ 53.
Proof. split_and!; [by vm_compute| |by vm_compute]. unfold safe. lia. Qed.

(** ** Identifiers of the log *)

Lemma set_status_same (t : Transaction) : set_status (status t) t = t.
Proof. by destruct t. Qed.

Lemma identifiers_alter (st : TransactionStatus) (i : nat) (log : list Transaction) :
  transactionId <$> alter (set_status st) i log = transactionId <$> log.
Proof.
  rewrite (list_fmap_alter transactionId (set_status st) id).
  - by apply list_alter_id.
  - by apply Forall_forall.
Qed.

Lemma identifiers_step (e : Event) (s : State) :
  timers_ok s → NoDup (identifiers s) → NoDup (identifiers (step e s)).
Proof.
  intros Hok Hs. destruct (handle_request e s) as [[_ ->]|[res Hrun]].
  - destruct (timers s) as [|t later] eqn:Htimers.
    { unfold timer_fires. by rewrite Htimers. }
    destruct Hok as [Hall _]. rewrite Htimers in Hall. apply Forall_cons in Hall as [Ht _].
    destruct (timer_fires_effect s t later Htimers Ht) as (u & Hu & ->).
    unfold identifiers. simpl. by rewrite identifiers_alter.
  - apply request_effect in Hrun
      as [->|[(uid & u & delta & recorded & minted & _ & -> & _ & Hrec)
             |(uid & u & amt & phone & rnd & now & _ & _ & Hfresh & ->)]]; [done| |].
    + unfold identifiers. simpl. rewrite fmap_app. fold (identifiers s).
      destruct Hrec as [[-> _]|(t & -> & _ & _ & Hfresh)].
      * by rewrite app_nil_r.
      * apply NoDup_app. split; [done|]. split; [|apply NoDup_singleton].
        intros id Hid Hnew. apply list_elem_of_singleton in Hnew. by subst id.
    + unfold identifiers, queued. simpl. rewrite fmap_app. fold (identifiers s).
      apply NoDup_app. split; [done|]. split; [|apply NoDup_singleton].
      intros id Hid Hnew. apply list_elem_of_singleton in Hnew. by subst id.
Qed.

Lemma records_kept (e : Event) (s : State) (i : nat) (tx : Transaction) :
  timers_ok s → transactions s !! i = Some tx →
  ∃ st, transactions (step e s) !! i = Some (set_status st tx).
Proof.
  intros Hok Htx. destruct (handle_request e s) as [[_ ->]|[res Hrun]].
  - destruct (timers s) as [|t later] eqn:Htimers.
    { unfold timer_fires. rewrite Htimers. exists (status tx). by rewrite set_status_same. }
    destruct Hok as [Hall _]. rewrite Htimers in Hall. apply Forall_cons in Hall as [Ht _].
    destruct (timer_fires_effect s t later Htimers Ht) as (u & Hu & ->). simpl.
    destruct (decide (transaction_id (timer_transaction t) = i)) as [->|Hne].
    + exists completed. by rewrite list_lookup_alter_eq, Htx.
    + exists (status tx). by rewrite list_lookup_alter_ne, set_status_same.
  - exists (status tx). rewrite set_status_same.
    apply request_effect in Hrun
      as [->|[(uid & u & delta & recorded & minted & _ & -> & _)
             |(uid & u & amt & phone & rnd & now & _ & _ & _ & ->)]]; [done| |];
      simpl; by apply lookup_app_l_Some.
Qed.

Lemma identifiers_run (es : list Event) (s : State) :
  timers_ok s → NoDup (identifiers s) → NoDup (identifiers (run es s)).
Proof.
  revert s. induction es as [|e es IH]; intros s Hok Hs; [done|].
  simpl. apply IH; [by apply timers_ok_step|by apply identifiers_step].
Qed.

(** C7, as the log has it: in every reachable state the identifiers of the
    records are pairwise distinct, because the log refuses a write whose
    identifier it already holds. Nothing is regenerated or retried: such a
    write throws and leaves the state as it was, so a withdrawal request
    whose generated identifier collides ends in "Internal server error"
    without a record. No event overwrites a record of the log: after any
    event each record is where it was, with at most its status changed. *)
Theorem identifiers_unique (s : State) :
  reachable s →
  NoDup (identifiers s) ∧
  (∀ t, transactionId t ∈ identifiers s → Transaction_insert t s = (s, Thrown)) ∧
  (∀ uid u amt phone rnd now,
     users s !! uid = Some u → amt ≤ balance u → "wd_" +:+ rnd ∈ identifiers s →
     post_withdraw (Some uid) amt phone rnd now s = (s, InternalServerError)) ∧
  (∀ e i tx, transactions s !! i = Some tx →
     ∃ st, transactions (step e s) !! i = Some (set_status st tx)).
Proof.
  intros Hreach. pose proof (reachable_timers_ok s Hreach) as Hok.
  destruct Hreach as (s0 & es & Hinit & ->). split_and!.
  - apply identifiers_run; [by apply initial_timers_ok|].
    destruct Hinit as (Hlog & _). unfold identifiers. rewrite Hlog. constructor.
  - intros t Hin. apply Transaction_insert_rejected. by right.
  - intros uid u amt phone rnd now Hu Hle Hin. route_unfold. rewrite Hu. simpl.
    apply Z.ltb_ge in Hle. rewrite Hle.
    by rewrite Transaction_insert_rejected by (right; exact Hin).
  - intros e i tx Htx. by apply records_kept.
Qed.

Lemma identifiers_unique_witness :
  NoDup (identifiers (run one_withdrawal (one_account 0))) ∧
  post_withdraw (Some 0%nat) 20 "0700000000" "k3j9x0q1z" 3 (run one_withdrawal (one_account 0))
    = (run one_withdrawal (one_account 0), InternalServerError).
Proof.
  assert (Hreach : reachable (run one_withdrawal (one_account 0))).
  { exists (one_account 0), one_withdrawal. split; [apply initial_one_account|done]. }
  destruct (identifiers_unique _ Hreach) as (Hdup & _ & Hcollide & _).
  split; [exact Hdup|].
  apply (Hcollide 0%nat (alice 100)); [reflexivity|simpl; lia|].
  vm_compute. apply list_elem_of_further, list_elem_of_here.
Defined.

(** C7, as stated, fails: with [wd_k3j9x0q1z] in the log, a withdrawal
    request that draws the same suffix is not recorded under another
    identifier; it ends in "Internal server error" and the log is as it was. *)
Lemma collision_not_retried :
  "wd_k3j9x0q1z" ∈ identifiers (run one_withdrawal (one_account 0)) ∧
  ¬ collision_retried (run one_withdrawal (one_account 0)) 0%nat 20 "0700000000"
      "k3j9x0q1z" 3 ∧
  post_withdraw (Some 0%nat) 20 "0700000000" "k3j9x0q1z" 3 (run one_withdrawal (one_account 0))
    = (run one_withdrawal (one_account 0), InternalServerError).
Proof.
  assert (Hin : "wd_k3j9x0q1z" ∈ identifiers (run one_withdrawal (one_account 0))).
  { vm_compute. apply list_elem_of_further, list_elem_of_here. }
  split; [exact Hin|]. split; [|by vm_compute].
  intros H. destruct (H Hin) as (s' & id & Hrun & _). vm_compute in Hrun. discriminate Hrun.
Qed.

(** * Further properties of the routes *)

(** ** [requireAuth] *)

Lemma Transaction_insert_cases (t : Transaction) (s : State) :
  Transaction_insert t s = (s, Thrown) ∨
  Transaction_insert t s =
    (with_transactions (λ log, log ++ [t]) s,
     Value {| transaction_id := length (transactions s); transaction_doc := t;
              status_modified := false |}).
Proof.
  unfold Transaction_insert. destruct (decide (transactionId t = EmptyString)); [by left|].
  destruct (decide (transactionId t ∈ transactionId <$> transactions s)); [by left|by right].
Qed.

Lemma deposit_not_401 (s : State) (uid : ObjectId) (amount : option Z) (tid : string)
    (now : Z) :
  (post_deposit (Some uid) amount tid now s).2 ≠ AuthenticationRequired.
Proof.
  destruct amount as [a|];
    [|route_unfold; destruct (users s !! uid); simpl; discriminate].
  destruct (post_deposit _ _ _ _ s) as [s' res] eqn:Hrun. simpl.
  apply deposit_cases in Hrun as [(_ & _ & ->)|(u & _ & [(_ & -> & _)|(_ & _ & _ & ->)])];
    discriminate.
Qed.

Lemma withdraw_not_401 (s : State) (uid : ObjectId) (amt : Z) (phone rnd : string) (now : Z) :
  (post_withdraw (Some uid) amt phone rnd now s).2 ≠ AuthenticationRequired.
Proof.
  route_unfold. destruct (users s !! uid) as [u|]; simpl; [|discriminate].
  destruct (balance u <? amt); [simpl; discriminate|].
  match goal with |- context [Transaction_insert ?t s] =>
    destruct (Transaction_insert_cases t s) as [-> | ->] end; simpl; discriminate.
Qed.

Lemma purchase_not_401 (s : State) (uid : ObjectId) (gameId : IdParam)
    (quantity : option Z) (rnd : string) (codes : nat → string) (now : Z) :
  (post_tickets_purchase (Some uid) gameId quantity rnd codes now s).2
    ≠ AuthenticationRequired.
Proof.
  destruct gameId as [gid| |];
    [|rewrite purchase_no_id by auto; simpl; by destruct (users s !! uid)..].
  destruct (post_tickets_purchase _ _ _ _ _ _ s) as [s' res] eqn:Hrun. simpl.
  apply purchase_cases in Hrun as [[_ Hres]|(u & g & rec & minted & _ & _ & _ & _ & Hend)].
  - destruct Hres as [[_ ->]|[[_ ->]|(u & g & _ & _ & _ & ->)]]; discriminate.
  - destruct Hend as [(_ & _ & -> & _)|[(_ & _ & _ & ->)|(_ & _ & _ & ->)]]; discriminate.
Qed.

Lemma spin_not_401 (s : State) (uid : ObjectId) (gameId : IdParam) (r : Q) (rnd : string)
    (now : Z) :
  (post_games_spin (Some uid) gameId r rnd now s).2 ≠ AuthenticationRequired.
Proof.
  destruct gameId as [gid| |];
    [|rewrite spin_no_id by auto; simpl; by destruct (users s !! uid)..].
  destruct (post_games_spin _ _ _ _ _ s) as [s' res] eqn:Hrun. simpl.
  revert Hrun. route_unfold. destruct (users s !! uid) as [u|] eqn:Hu; simpl; [|by intros [= _ <-]].
  destruct (games s !! gid) as [g|]; simpl; [|by intros [= _ <-]].
  destruct (array_get _ _) as [p|]; [|by intros [= _ <-]].
  destruct (0 <? prize_amount p); [|by intros [= _ <-]].
  rewrite save_assigned by done. simpl.
  match goal with |- context [Transaction_insert ?t ?s1] =>
    destruct (Transaction_insert_cases t s1) as [-> | ->] end; by intros [= _ <-].
Qed.

(** X1: the routes behind [requireAuth] answer "Authentication required"
    (401) exactly when the request carries no session, and then they leave the
    state as it was; with a session none of them answers 401. *)
Theorem session_required (s : State) (session : option ObjectId) :
  (session = None ↔ (get_transactions session s).2 = AuthenticationRequired) ∧
  (session = None ↔ (get_balance session s).2 = inl AuthenticationRequired) ∧
  (session = None ↔ (get_tickets session s).2 = inl AuthenticationRequired) ∧
  (∀ a tid now,
     session = None ↔ (post_deposit session a tid now s).2 = AuthenticationRequired) ∧
  (∀ amt phone rnd now,
     session = None ↔ (post_withdraw session amt phone rnd now s).2 = AuthenticationRequired) ∧
  (∀ gid quantity rnd codes now,
     session = None ↔
     (post_tickets_purchase session gid quantity rnd codes now s).2 = AuthenticationRequired) ∧
  (∀ gid r rnd now,
     session = None ↔ (post_games_spin session gid r rnd now s).2 = AuthenticationRequired) ∧
  (session = None →
     (get_transactions session s).1 = s ∧ (get_balance session s).1 = s ∧
     (get_tickets session s).1 = s ∧
     (∀ a tid now, (post_deposit session a tid now s).1 = s) ∧
     (∀ amt phone rnd now, (post_withdraw session amt phone rnd now s).1 = s) ∧
     (∀ gid quantity rnd codes now,
        (post_tickets_purchase session gid quantity rnd codes now s).1 = s) ∧
     (∀ gid r rnd now, (post_games_spin session gid r rnd now s).1 = s)).
Proof.
  destruct session as [uid|].
  - split_and!; try (intros; split; [discriminate|]); try discriminate.
    + unfold get_balance, requireAuth_json, try_catch_json, bind, User_findById, ret, respond.
      destruct (users s !! uid); simpl; discriminate.
    + intros H. by apply deposit_not_401 in H.
    + intros H. by apply withdraw_not_401 in H.
    + intros H. by apply purchase_not_401 in H.
    + intros H. by apply spin_not_401 in H.
  - split_and!; try (intros; split); done.
Qed.

(** ** [/api/balance] after a write *)

Lemma get_balance_stored (s : State) (uid : ObjectId) (u : User) :
  users s !! uid = Some u → get_balance (Some uid) s = (s, inr (balance u)).
Proof.
  intros Hu. unfold get_balance, requireAuth_json, try_catch_json, bind, User_findById.
  by rewrite Hu.
Qed.

Lemma written_balance (s : State) uid u delta recorded minted :
  users (written uid u delta recorded minted s) !! uid
  = Some (set_balance (balance u + delta) u).
Proof. simpl. apply lookup_insert_eq. Qed.

Lemma get_balance_written (s : State) uid u delta recorded minted :
  get_balance (Some uid) (written uid u delta recorded minted s)
  = (written uid u delta recorded minted s, inr (balance u + delta)).
Proof. by rewrite (get_balance_stored _ uid _ (written_balance s uid u delta recorded minted)). Qed.

(** X2: for a stored user, a deposit whose body has no amount writes nothing
    and answers "Internal server error"; a deposit of an integer amount
    (amount, balance and their sum being integers the code adds exactly)
    credits the balance whatever it answers. The balance read right after it
    is the old balance plus the amount; the answer is the new balance, or
    "Internal server error" exactly when the [transactionId] of the request
    is empty or already in the log, in which case nothing was recorded for
    the credit. *)
Theorem deposit_then_balance (s : State) (uid : ObjectId) (u : User) (a : Z)
    (tid : string) (now : Z) :
  users s !! uid = Some u →
  post_deposit (Some uid) None tid now s = (s, InternalServerError) ∧
  (exact (Deposit (Some uid) a tid now) s →
   ∃ s' res,
     post_deposit (Some uid) (Some a) tid now s = (s', res) ∧
     get_balance (Some uid) s' = (s', inr (balance u + a)) ∧
     (res = DepositOk (balance u + a) ∨ res = InternalServerError) ∧
     (res = InternalServerError ↔ tid = EmptyString ∨ tid ∈ identifiers s) ∧
     (res = InternalServerError → transactions s' = transactions s) ∧
     (res = DepositOk (balance u + a) →
        transactions s' = transactions s ++ [deposit_record uid a tid now])).
Proof.
  intros Hu. split; [route_unfold; by rewrite Hu|]. intros _.
  destruct (post_deposit (Some uid) (Some a) tid now s) as [s' res] eqn:Hrun.
  exists s', res. split; [done|].
  apply deposit_cases in Hrun as [(_ & Hnone & _)|(u' & Hu' & Hend)]; [congruence|].
  rewrite Hu in Hu'. injection Hu' as <-.
  destruct Hend as [(-> & -> & Hbad)|(-> & Hne & Hfresh & ->)].
  - split_and!; [by apply get_balance_written|by right|done| |done].
    simpl. by rewrite app_nil_r.
  - split_and!; [by apply get_balance_written|by left| |done|done].
    split; [done|]. intros [?|?]; done.
Qed.

Lemma deposit_then_balance_witness :
  post_deposit (Some 0%nat) None "PSP-2" 3 (run one_withdrawal (one_account 0))
    = (run one_withdrawal (one_account 0), InternalServerError) ∧
  ∃ s',
    post_deposit (Some 0%nat) (Some 25) "PSP-1" 3 (run one_withdrawal (one_account 0))
      = (s', InternalServerError) ∧
    get_balance (Some 0%nat) s' = (s', inr 125) ∧
    transactions s' = transactions (run one_withdrawal (one_account 0)).
Proof.
  destruct (deposit_then_balance (run one_withdrawal (one_account 0)) 0%nat (alice 100)
              25 "PSP-1" 3 eq_refl) as [_ H].
  split; [by vm_compute|].
  destruct H as (s' & res & Hrun & Hbal & _ & Hiff & Hlog & _).
  { split; by_evaluation. }
  assert (res = InternalServerError) as ->.
  { apply Hiff. right. vm_compute. apply list_elem_of_here. }
  exists s'. split; [exact Hrun|]. split; [exact Hbal|]. by apply Hlog.
Defined.

Lemma spin_reports_stored (s : State) (uid gid : ObjectId) (r : Q) (rnd : string) (now : Z)
    (s' : State) (res : Response) (b : Z) :
  post_games_spin (Some uid) (id_of gid) r rnd now s = (s', res) →
  reported_balance res = Some b →
  ∃ u', users s' !! uid = Some u' ∧ balance u' = b.
Proof.
  route_unfold. destruct (users s !! uid) as [u|] eqn:Hu; simpl; [|by intros [= <- <-]].
  destruct (games s !! gid) as [g|]; simpl; [|by intros [= <- <-]].
  destruct (array_get _ _) as [p|]; [|by intros [= <- <-]].
  destruct (0 <? prize_amount p).
  - rewrite save_assigned by done. simpl.
    match goal with |- context [Transaction_insert ?t ?s1] =>
      destruct (Transaction_insert_cases t s1) as [-> | ->] end;
      intros [= <- <-]; [done|]. intros [= <-].
    eexists. split; [apply lookup_insert_eq|done].
  - intros [= <- <-] [= <-]. by exists u.
Qed.

(** X3: the balance that a deposit, a purchase or a spin reports in its
    answer is the balance stored when the request ends: [/api/balance] asked
    right after with the same session answers that very number. The other
    requests report no balance. *)
Theorem reported_balance_is_stored (e : Event) (uid : ObjectId) (s s' : State)
    (res : Response) (b : Z) :
  session_of e = Some uid → handle e s = (s', Some res) →
  reported_balance res = Some b →
  get_balance (Some uid) s' = (s', inr b).
Proof.
  destruct e as [session|session a tid now|session amt phone rnd now
                |session gid quantity rnd codes now|session gid r rnd now|];
    simpl; intros Hsession; [subst session..|discriminate Hsession].
  - intros [= <- <-]. discriminate.
  - destruct (post_deposit _ _ _ _ s) as [s1 res1] eqn:Hrun. intros [= <- <-].
    apply deposit_cases in Hrun as [(_ & _ & ->)|(u & _ & [(_ & -> & _)|(-> & _ & _ & ->)])];
      [done..|]. intros [= <-]. apply get_balance_written.
  - destruct (post_withdraw _ _ _ _ _ s) as [s1 res1] eqn:Hrun. intros [= <- <-].
    revert Hrun. route_unfold. destruct (users s !! uid) as [u|]; simpl; [|by intros [= _ <-]].
    destruct (balance u <? amt); [by intros [= _ <-]|].
    match goal with |- context [Transaction_insert ?t s] =>
      destruct (Transaction_insert_cases t s) as [-> | ->] end; by intros [= _ <-].
  - destruct (post_tickets_purchase _ _ _ _ _ _ s) as [s1 res1] eqn:Hrun. intros [= <- <-].
    destruct gid as [gid| |];
      [|rewrite purchase_no_id in Hrun by auto; injection Hrun as _ <-;
        by destruct (users s !! uid)..].
    apply purchase_cases in Hrun as [[_ Hres]|(u & g & rec & minted & _ & _ & _ & -> & Hend)].
    + destruct Hres as [[_ ->]|[[_ ->]|(u & g & _ & _ & _ & ->)]]; done.
    + destruct Hend as [(_ & _ & -> & _)|[(_ & _ & _ & ->)|(_ & _ & _ & ->)]]; [done..|].
      intros [= <-]. apply get_balance_written.
  - destruct (post_games_spin _ _ _ _ _ s) as [s1 res1] eqn:Hrun. intros [= <- <-].
    destruct gid as [gid| |];
      [|rewrite spin_no_id in Hrun by auto; injection Hrun as _ <-;
        by destruct (users s !! uid)..].
    intros Hrep. destruct (spin_reports_stored _ _ _ _ _ _ _ _ _ Hrun Hrep) as (u' & Hu' & <-).
    by apply get_balance_stored.
Qed.

Lemma reported_balance_is_stored_witness :
  ∃ s' minted,
    handle (PurchaseTicket (Some 0%nat) (id_of 0%nat) (Some 2) "a1b2c3d4e" numbered_codes 3)
      (one_account 100) = (s', Some (PurchaseOk minted 40)) ∧
    get_balance (Some 0%nat) s' = (s', inr 40).
Proof.
  destruct (handle (PurchaseTicket (Some 0%nat) (id_of 0%nat) (Some 2) "a1b2c3d4e" numbered_codes 3)
              (one_account 100)) as [s' res] eqn:Hrun.
  assert (∃ minted, res = Some (PurchaseOk minted 40)) as [minted ->].
  { vm_compute in Hrun. injection Hrun as _ <-. by eexists. }
  exists s', minted. split; [reflexivity|].
  by apply (reported_balance_is_stored
              (PurchaseTicket (Some 0%nat) (id_of 0%nat) (Some 2) "a1b2c3d4e" numbered_codes 3)
              0%nat _ _ _ 40 eq_refl Hrun).
Defined.

(** ** [/api/games] *)

(** X4: the catalogue route needs no session and changes nothing. It answers
    with the stored games whose [active] flag is set, each once and with its
    [_id]: a game is listed exactly when it is stored and active. *)
Theorem active_games_listed (s : State) :
  ∃ found,
    get_games s = (s, inr found) ∧ NoDup found ∧
    ∀ gid g, (gid, g) ∈ found ↔ games s !! gid = Some g ∧ active g = true.
Proof.
  eexists. split; [reflexivity|]. split.
  - apply NoDup_filter, NoDup_map_to_list.
  - intros gid g. rewrite list_elem_of_filter, elem_of_map_to_list. simpl. tauto.
Qed.

(** ** [/api/tickets] *)

Lemma populated_tickets (s : State) (l : list Ticket) : (populate_gameId s <$> l).*1 = l.
Proof. induction l as [|t l IH]; [done|]. simpl. f_equal. exact IH. Qed.

(** X5: the ticket listing changes nothing and has no limit: it answers with
    all the tickets of the caller and no others, latest purchase first, each
    one beside the game its [gameId] names in the catalogue (or nothing when
    the catalogue has no such game). *)
Theorem tickets_listing (s : State) (uid : ObjectId) :
  ∃ found,
    get_tickets (Some uid) s = (s, inr found) ∧
    found.*1 ≡ₚ Ticket_find uid (tickets s) ∧
    StronglySorted later_purchase_first found.*1 ∧
    (∀ t, t ∈ found.*1 ↔ t ∈ tickets s ∧ ticket_userId t = uid) ∧
    (∀ t g, (t, g) ∈ found → g = games s !! ticket_gameId t).
Proof.
  eexists. split; [reflexivity|]. rewrite populated_tickets. split_and!.
  - apply merge_sort_Permutation.
  - apply StronglySorted_merge_sort; apply _.
  - intros t. rewrite merge_sort_Permutation. unfold Ticket_find.
    rewrite list_elem_of_filter. tauto.
  - intros t g Hin. apply list_elem_of_fmap in Hin as (t' & Heq & _).
    unfold populate_gameId in Heq. by injection Heq as -> ->.
Qed.

(** ** The tickets of a purchase *)

Lemma create_tickets_made (n i : nat) (codes : nat → string) (uid gid : ObjectId)
    (dd now : Z) (made : list Ticket) (s : State) :
  ∃ minted o,
    create_tickets n i codes uid gid dd now made s
      = (with_tickets (λ all, all ++ minted) s, o) ∧
    Forall (made_by uid gid dd now) minted ∧
    NoDup (ticketCode <$> minted) ∧
    (∀ c, c ∈ ticketCode <$> minted → c ∉ ticketCode <$> tickets s) ∧
    match o with
    | Value l => l = made ++ minted ∧ length minted = n
    | Thrown => (length minted < n)%nat
    | Responded _ => False
    end.
Proof.
  revert i made s. induction n as [|n IH]; intros i made s.
  - exists [], (Value made). simpl. unfold ret.
    rewrite with_tickets_nil, !app_nil_r. split_and!; try done; try (by constructor).
    intros c Hc. by apply elem_of_nil in Hc.
  - simpl. unfold bind.
    match goal with |- context [Ticket_insert ?t s] => set (ticket := t) end.
    destruct (Ticket_insert_cases ticket s) as [[_ ->]|[Hfresh ->]]; [done| |].
    + exists [], Thrown. rewrite with_tickets_nil.
      split_and!; try done; try (by constructor); [|simpl; lia].
      intros c Hc. by apply elem_of_nil in Hc.
    + destruct (IH (S i) (made ++ [ticket]) (with_tickets (λ all, all ++ [ticket]) s))
        as (minted & o & Heq & Hall & Hdup & Hnew & Ho).
      simpl in Hnew. setoid_rewrite fmap_app in Hnew.
      exists (ticket :: minted), o. rewrite Heq, with_tickets_app. split_and!.
      * done.
      * constructor; [by unfold made_by|done].
      * rewrite fmap_cons. apply NoDup_cons. split; [|done].
        intros Hin. apply Hnew in Hin. apply Hin, elem_of_app. right. apply list_elem_of_here.
      * intros c Hc. rewrite fmap_cons in Hc. apply elem_of_cons in Hc as [->|Hc]; [done|].
        apply Hnew in Hc. intros Hold. apply Hc, elem_of_app. by left.
      * destruct o as [l| |]; simpl; [|done|lia].
        destruct Ho as [-> <-]. by rewrite <- app_assoc.
Qed.

(** What a purchase does to the tickets, however it ends. *)
Lemma purchase_tickets (s : State) (uid gid : ObjectId) (quantity : option Z)
    (rnd : string) (codes : nat → string) (now : Z) (s' : State) (res : Response) :
  post_tickets_purchase (Some uid) (id_of gid) quantity rnd codes now s = (s', res) →
  ∃ minted,
    tickets s' = tickets s ++ minted ∧ games s' = games s ∧
    NoDup (ticketCode <$> minted) ∧
    (∀ c, c ∈ ticketCode <$> minted → c ∉ ticketCode <$> tickets s) ∧
    (minted = [] ∨
     ∃ u g, users s !! uid = Some u ∧ games s !! gid = Some g ∧
            Forall (made_by uid gid (now + durationDays g * day_ms) now) minted) ∧
    (∀ l b, res = PurchaseOk l b →
       l = minted ∧ length minted = Z.to_nat (default 1%Z quantity)).
Proof.
  route_unfold.
  destruct (users s !! uid) as [u|] eqn:Hu; simpl.
  2: { intros [= <- <-]. exists []. rewrite app_nil_r.
       split_and!; auto; try done; try (by constructor).
       intros c Hc. by apply elem_of_nil in Hc. }
  destruct (games s !! gid) as [g|] eqn:Hg; simpl.
  2: { intros [= <- <-]. exists []. rewrite app_nil_r.
       split_and!; auto; try done; try (by constructor).
       intros c Hc. by apply elem_of_nil in Hc. }
  destruct (balance u <? price g * default 1 quantity).
  { intros [= <- <-]. exists []. rewrite app_nil_r.
    split_and!; auto; try done; try (by constructor).
       intros c Hc. by apply elem_of_nil in Hc. }
  rewrite save_assigned by done. simpl.
  match goal with |- context [Transaction_insert ?t ?s1] =>
    destruct (Transaction_insert_cases t s1) as [-> | ->] end.
  { intros [= <- <-]. exists []. simpl. rewrite app_nil_r.
    split_and!; auto; try done; try (by constructor).
       intros c Hc. by apply elem_of_nil in Hc. }
  match goal with |- context [create_tickets ?n 0 codes uid gid ?dd now [] ?s2] =>
    destruct (create_tickets_made n 0 codes uid gid dd now [] s2)
      as (minted & o & -> & Hall & Hdup & Hnew & Ho) end.
  intros Hrun. exists minted. split_and!.
  - by destruct o; injection Hrun as <- _.
  - by destruct o; injection Hrun as <- _.
  - done.
  - exact Hnew.
  - right. by exists u, g.
  - intros l b ->. destruct o as [l'| |]; [|done|discriminate Hrun].
    injection Hrun as _ <- _. by destruct Ho as [-> ?].
Qed.

(** X6: the tickets of a successful purchase are what the request asked for.
    There are [quantity] of them (none for a quantity below 1); each belongs
    to the buyer and to the game bought and is [active] with no prize; all
    carry one and the same draw date; their codes differ from one another
    and from every code stored before; and they are the tickets added to the
    store, in the order of the answer. *)
Theorem purchased_tickets (s : State) (uid gid : ObjectId) (quantity : option Z)
    (rnd : string) (codes : nat → string) (now : Z) (s' : State)
    (minted : list Ticket) (b : Z) :
  post_tickets_purchase (Some uid) (id_of gid) quantity rnd codes now s
    = (s', PurchaseOk minted b) →
  ∃ g, games s !! gid = Some g ∧
       length minted = Z.to_nat (default 1%Z quantity) ∧
       Forall (λ t, ticket_userId t = uid ∧ ticket_gameId t = gid ∧
                    ticket_status t = ticket_active ∧ prizeWon t = 0) minted ∧
       (∀ t t', t ∈ minted → t' ∈ minted → drawDate t = drawDate t') ∧
       NoDup (ticketCode <$> minted) ∧
       (∀ t, t ∈ minted → ticketCode t ∉ ticketCode <$> tickets s) ∧
       tickets s' = tickets s ++ minted.
Proof.
  intros Hrun. pose proof (purchase_tickets _ _ _ _ _ _ _ _ _ Hrun)
    as (minted' & Htk & _ & Hdup & Hnew & Hmade & Hok).
  destruct (Hok minted b eq_refl) as [<- Hlen].
  apply purchase_cases in Hrun as [[_ Hres]|(u & g & _ & _ & _ & Hg & _)].
  { destruct Hres as [[_ ?]|[[_ ?]|(? & ? & _ & _ & _ & ?)]]; discriminate. }
  assert (Hall : Forall (made_by uid gid (now + durationDays g * day_ms) now) minted).
  { destruct Hmade as [->|(u' & g' & _ & Hg' & Hall)]; [constructor|].
    rewrite Hg in Hg'. by injection Hg' as <-. }
  rewrite Forall_forall in Hall.
  exists g. split_and!; [done|done| | |done| |done].
  - apply Forall_forall. intros t Ht.
    by destruct (Hall t Ht) as (? & ? & _ & _ & ? & ?).
  - intros t t' Ht Ht'. destruct (Hall t Ht) as (_ & _ & -> & _).
    by destruct (Hall t' Ht') as (_ & _ & -> & _).
  - intros t Ht. apply Hnew. by apply list_elem_of_fmap_2.
Qed.

Lemma purchased_tickets_witness :
  ∃ s' minted,
    post_tickets_purchase (Some 0%nat) (id_of 0%nat) (Some 2) "a1b2c3d4e" numbered_codes 3
      (one_account 100) = (s', PurchaseOk minted 40) ∧
    length minted = 2%nat ∧
    Forall (λ t, ticket_userId t = 0%nat ∧ ticket_gameId t = 0%nat ∧
                 ticket_status t = ticket_active ∧ prizeWon t = 0) minted.
Proof.
  destruct (post_tickets_purchase (Some 0%nat) (id_of 0%nat) (Some 2) "a1b2c3d4e" numbered_codes 3
              (one_account 100)) as [s' res] eqn:Hrun.
  assert (∃ minted, res = PurchaseOk minted 40) as [minted ->].
  { vm_compute in Hrun. injection Hrun as _ <-. by eexists. }
  destruct (purchased_tickets _ _ _ _ _ _ _ _ _ _ Hrun) as (g & Hg & Hlen & Hall & _).
  injection Hg as <-. exists s', minted. split; [reflexivity|]. split; [exact Hlen|exact Hall].
Defined.

(** X7: what was bought can be listed. After a successful purchase the
    ticket listing of the buyer contains every ticket of the answer, each
    beside the game that was bought. *)
Theorem purchased_tickets_listed (s : State) (uid gid : ObjectId) (quantity : option Z)
    (rnd : string) (codes : nat → string) (now : Z) (s' : State)
    (minted : list Ticket) (b : Z) :
  post_tickets_purchase (Some uid) (id_of gid) quantity rnd codes now s = (s', PurchaseOk minted b) →
  ∃ g found,
    games s !! gid = Some g ∧
    get_tickets (Some uid) s' = (s', inr found) ∧
    ∀ t, t ∈ minted → (t, Some g) ∈ found.
Proof.
  intros Hrun. pose proof (purchase_tickets _ _ _ _ _ _ _ _ _ Hrun)
    as (minted' & Htk & Hgames & _ & _ & Hmade & Hok).
  destruct (Hok minted b eq_refl) as [<- _].
  apply purchase_cases in Hrun as [[_ Hres]|(u & g & _ & _ & _ & Hg & _)].
  { destruct Hres as [[_ ?]|[[_ ?]|(? & ? & _ & _ & _ & ?)]]; discriminate. }
  exists g. eexists. split; [done|]. split; [reflexivity|].
  intros t Ht.
  destruct Hmade as [->|(u' & g' & _ & _ & Hall)]; [by apply elem_of_nil in Ht|].
  rewrite Forall_forall in Hall. destruct (Hall t Ht) as (Huid & Hgid & _).
  apply list_elem_of_fmap. exists t. split.
  - unfold populate_gameId. by rewrite Hgid, Hgames, Hg.
  - rewrite merge_sort_Permutation. apply list_elem_of_filter. split; [done|].
    rewrite Htk. apply elem_of_app. by right.
Qed.

Lemma purchased_tickets_listed_witness :
  ∃ s' minted found,
    post_tickets_purchase (Some 0%nat) (id_of 0%nat) (Some 2) "a1b2c3d4e" numbered_codes 3
      (one_account 100) = (s', PurchaseOk minted 40) ∧
    get_tickets (Some 0%nat) s' = (s', inr found) ∧
    ∀ t, t ∈ minted → (t, Some lucky_wheel) ∈ found.
Proof.
  destruct (post_tickets_purchase (Some 0%nat) (id_of 0%nat) (Some 2) "a1b2c3d4e" numbered_codes 3
              (one_account 100)) as [s' res] eqn:Hrun.
  assert (∃ minted, res = PurchaseOk minted 40) as [minted ->].
  { vm_compute in Hrun. injection Hrun as _ <-. by eexists. }
  destruct (purchased_tickets_listed _ _ _ _ _ _ _ _ _ _ Hrun) as (g & found & Hg & Hlist & Hin).
  injection Hg as <-. exists s', minted, found. split; [reflexivity|]. split; [exact Hlist|exact Hin].
Defined.

(** ** The draw of [/api/games/spin] *)

Lemma scaled_nonneg (z k : Z) : 0 ≤ k → scaled z k = z * 2 ^ k.
Proof. intros Hk. unfold scaled. by rewrite Z.max_r. Qed.

Lemma scaled_neg (z k : Z) : k ≤ 0 → scaled z k = z.
Proof. intros Hk. unfold scaled. rewrite Z.max_l by done. simpl. lia. Qed.

(** [2^e ≤ a/b] for the exponent [e] of [a/b]. *)
Lemma exponent_below (a b : Z) :
  0 < a → 0 < b → scaled b (exponent a b) ≤ scaled a (- exponent a b).
Proof.
  intros Ha Hb. unfold exponent.
  destruct (Z.log2_spec a Ha) as [Ha1 Ha2]. destruct (Z.log2_spec b Hb) as [Hb1 Hb2].
  pose proof (Z.log2_nonneg a) as Hla. pose proof (Z.log2_nonneg b) as Hlb.
  set (la := Z.log2 a) in *. set (lb := Z.log2 b) in *.
  destruct (Z.ltb_spec (scaled a (- (la - lb))) (scaled b (la - lb))) as [Hlt|Hge]; [|done].
  destruct (Z_le_gt_dec 0 (la - lb - 1)) as [Hpos|Hneg].
  - rewrite scaled_nonneg, scaled_neg by lia.
    replace la with (lb + 1 + (la - lb - 1)) in Ha1 by lia.
    rewrite Z.pow_add_r in Ha1 by lia.
    assert (0 < 2 ^ (la - lb - 1)) by (apply Z.pow_pos_nonneg; lia). nia.
  - rewrite scaled_neg, scaled_nonneg by lia.
    replace (Z.succ lb) with (la + - (la - lb - 1)) in Hb2 by lia.
    rewrite Z.pow_add_r in Hb2 by lia.
    assert (0 < 2 ^ (- (la - lb - 1))) by (apply Z.pow_pos_nonneg; lia). nia.
Qed.

Lemma nearest_even_nonneg (n d : Z) : 0 ≤ n → 0 < d → 0 ≤ nearest_even n d.
Proof.
  intros Hn Hd. unfold nearest_even.
  assert (0 ≤ n / d) by (apply Z.div_pos; lia).
  repeat case_match; lia.
Qed.

(** Below the midpoint of [N - 1] and [N], rounding gives at most [N - 1]. *)
Lemma nearest_even_below (n d N : Z) :
  0 < d → 2 * n < (2 * N - 1) * d → nearest_even n d ≤ N - 1.
Proof.
  intros Hd Hlt. unfold nearest_even.
  pose proof (Z.div_mod n d ltac:(lia)) as Hdiv.
  pose proof (Z.mod_pos_bound n d Hd) as Hmod.
  set (f := n / d) in *. set (r := n mod d) in *.
  destruct (Z.ltb_spec (2 * r) d) as [H1|H1].
  - nia.
  - assert (f + 1 ≤ N - 1) by nia.
    repeat case_match; lia.
Qed.

(** The floor of the binary64 nearest to [a/b] is below [n] when
    [0 ≤ a/b ≤ n (1 - 2^-53)] and [n ≤ 2^53] is a positive integer. *)
Lemma floor_binary64_below (a b n : Z) :
  0 ≤ a → 0 < b → 1 ≤ n ≤ 2 ^ 53 →
  a * 2 ^ 53 ≤ b * n * (2 ^ 53 - 1) →
  0 ≤ floor_binary64 a b < n.
Proof.
  intros Ha Hb Hn Hle. unfold floor_binary64.
  destruct (Z.eqb_spec a 0) as [->|Hne]; [lia|].
  assert (Hpos : 0 < a) by lia.
  rewrite Z.abs_eq by lia. rewrite Z.sgn_pos by lia. rewrite Z.mul_1_l.
  pose proof (exponent_below a b Hpos Hb) as He.
  set (e := exponent a b) in *.
  assert (Han : a < b * n) by nia.
  assert (He52 : e ≤ 52).
  { destruct (Z_le_gt_dec e 52) as [?|Hbig]; [done|exfalso].
    rewrite scaled_nonneg, scaled_neg in He by lia.
    assert (2 ^ 53 ≤ 2 ^ e) by (apply Z.pow_le_mono_r; lia). nia. }
  set (p := Z.max (e - 52) (-1074)).
  assert (Hp : p ≤ 0) by lia.
  rewrite (scaled_neg b p) by done. rewrite (scaled_nonneg a (- p)) by lia.
  set (D := 2 ^ (- p)).
  assert (HD : 0 < D) by (apply Z.pow_pos_nonneg; lia).
  assert (HnD : 2 ^ 52 < n * D).
  { unfold D. destruct (Z_le_gt_dec 0 e) as [He0|He0].
    - assert (p = e - 52) as -> by lia.
      rewrite scaled_nonneg, scaled_neg in He by lia.
      assert (2 ^ e < n) by nia.
      replace 52 with (e + (- (e - 52))) at 1 by lia.
      rewrite Z.pow_add_r by lia.
      assert (0 < 2 ^ (- (e - 52))) by (apply Z.pow_pos_nonneg; lia). nia.
    - assert (2 ^ 52 < 2 ^ (- p)) by (apply Z.pow_lt_mono_r; lia). nia. }
  assert (Hm : nearest_even (a * D) b ≤ n * D - 1).
  { apply nearest_even_below; [done|]. nia. }
  pose proof (nearest_even_nonneg (a * D) b ltac:(nia) Hb) as Hm0.
  set (m := nearest_even (a * D) b) in *.
  destruct (Z.leb_spec 0 p) as [Hp0|Hp0].
  - assert (p = 0) as Hz by lia. unfold D in Hm. rewrite Hz in *. simpl in *. lia.
  - fold D. split; [by apply Z.div_pos|]. apply Z.div_lt_upper_bound; [done|]. lia.
Qed.

Lemma random_index_bounds (r : Q) (n : nat) :
  (0 <= r)%Q → (r <= below_one)%Q → (0 < n)%nat → Z.of_nat n ≤ 2 ^ 53 →
  0 ≤ random_index r n < Z.of_nat n.
Proof.
  intros H0 H1 Hn Hmax. unfold random_index.
  destruct r as [a b]. unfold Qle in H0, H1. simpl in *.
  apply floor_binary64_below; [nia|lia|lia|].
  rewrite Pos.mul_1_r. change (2 ^ 53) with 9007199254740992.
  change (9007199254740992 - 1) with 9007199254740991. nia.
Qed.

Section spin_draw.
Context (s : State) (uid gid : ObjectId) (u : User) (g : Game).
Context (r : Q) (rnd : string) (now : Z).
Hypothesis Huser : users s !! uid = Some u.
Hypothesis Hgame : games s !! gid = Some g.
Hypothesis Hr : (0 <= r)%Q ∧ (r <= below_one)%Q.
Hypothesis Hprizes : prizes g ≠ [].
Hypothesis Hlength : Z.of_nat (length (prizes g)) < 2 ^ 32.

(** X8: on a game with at least one prize entry (and fewer than 2^32, as an
    array has), a draw that is a binary64 in [0, 1), so at most 1 - 2^-53,
    lands on an index inside the list although the product is rounded: an
    entry of the list is drawn and the spin never fails for want of one.
    When the drawn entry's amount is not positive, the spin writes nothing
    and answers with that entry and the balance as it was. *)
Theorem spin_draws_entry :
  0 ≤ random_index r (length (prizes g)) < Z.of_nat (length (prizes g)) ∧
  ∃ p, p ∈ prizes g ∧
       array_get (prizes g) (random_index r (length (prizes g))) = Some p ∧
       (prize_amount p ≤ 0 →
          post_games_spin (Some uid) (id_of gid) r rnd now s
            = (s, SpinOk (prize_amount p) (position p) (balance u))).
Proof.
  destruct Hr as [H0 H1].
  assert (Hlen : (0 < length (prizes g))%nat).
  { destruct (prizes g); [done|simpl; lia]. }
  assert (Hmax : Z.of_nat (length (prizes g)) ≤ 2 ^ 53).
  { etransitivity; [apply Z.lt_le_incl, Hlength|]. by vm_compute. }
  pose proof (random_index_bounds r _ H0 H1 Hlen Hmax) as Hidx. split; [done|].
  destruct (lookup_lt_is_Some_2 (prizes g) (Z.to_nat (random_index r (length (prizes g)))))
    as [p Hp]; [lia|].
  assert (Hget : array_get (prizes g) (random_index r (length (prizes g))) = Some p).
  { unfold array_get. destruct (Z.ltb_spec (random_index r (length (prizes g))) 0); [lia|done]. }
  exists p. split_and!; [by eapply list_elem_of_lookup_2|done|].
  intros Hle. route_unfold. rewrite Huser. simpl. rewrite Hgame. simpl. rewrite Hget.
  destruct (Z.ltb_spec 0 (prize_amount p)); [lia|done].
Qed.
End spin_draw.

Lemma spin_draws_entry_witness :
  array_get (prizes lucky_wheel) (random_index (3 # 4) 3)
    = Some {| position := 2; prize_amount := 0 |} ∧
  post_games_spin (Some 0%nat) (id_of 0%nat) (3 # 4) "f5g6h7i8j" 4 (one_account 100)
    = (one_account 100, SpinOk 0 2 100).
Proof.
  destruct (spin_draws_entry (one_account 100) 0%nat 0%nat (alice 100) lucky_wheel (3 # 4)
              "f5g6h7i8j" 4 eq_refl eq_refl) as [_ (p & _ & Hget & Hspin)].
  - split; by vm_compute.
  - discriminate.
  - by vm_compute.
  - vm_compute in Hget. injection Hget as <-. split; [reflexivity|].
    apply Hspin. simpl. lia.
Defined.

(** The product is rounded before the floor is taken: with seven entries and
    the draw [2573485501354569 / 2^52], just below 4/7, the index is 4, the
    floor of the binary64 nearest to the product, not 3, the floor of the
    product. *)
Lemma random_index_rounds :
  random_index (2573485501354569 # 4503599627370496) 7 = 4 ∧
  Qfloor ((2573485501354569 # 4503599627370496) * 7) = 3.
Proof. split; by vm_compute. Qed.

(** ** The size of the transaction listing *)


(** ** Withdrawals do not reserve funds *)

Section two_withdrawals.
Context (s : State) (uid : ObjectId) (u : User).
Context (a1 a2 : Z) (phone1 phone2 rnd1 rnd2 : string) (now1 now2 : Z).
Hypothesis Huser : users s !! uid = Some u.
Hypothesis Hidle : timers s = [].
Hypothesis Ha1 : 0 < a1 ≤ balance u.
Hypothesis Ha2 : 0 < a2 ≤ balance u.
Hypothesis Hfresh1 : "wd_" +:+ rnd1 ∉ identifiers s.
Hypothesis Hfresh2 : "wd_" +:+ rnd2 ∉ identifiers s.
Hypothesis Hdiff : rnd1 ≠ rnd2.

End two_withdrawals.


(** ** [/api/register] and [/api/login] *)

Lemma User_findOne_spec (P : User → Prop) `{∀ u, Decision (P u)} (s : State) :
  ∃ found,
    User_findOne P s = (s, Value found) ∧
    match found with
    | None => ∀ id u, users s !! id = Some u → ¬ P u
    | Some d => users s !! user_id d = Some (user_doc d) ∧ P (user_doc d) ∧
                balance_modified d = false
    end.
Proof.
  unfold User_findOne.
  destruct (filter (λ ku : ObjectId * User, P ku.2) (map_to_list (users s)))
    as [|[id u] l] eqn:Hfilter; simpl.
  - exists None. split; [done|]. intros id u Hu HP.
    apply elem_of_map_to_list in Hu.
    by apply (filter_nil_not_elem_of _ _ (id, u) Hfilter).
  - eexists (Some _). split; [done|]. simpl.
    assert (Hin : (id, u) ∈ filter (λ ku : ObjectId * User, P ku.2) (map_to_list (users s))).
    { rewrite Hfilter. apply list_elem_of_here. }
    apply list_elem_of_filter in Hin as [HP Hin]. apply elem_of_map_to_list in Hin. done.
Qed.

Lemma fresh_id_unused (s : State) : users s !! fresh (dom (users s)) = None.
Proof. apply not_elem_of_dom, is_fresh. Qed.

Lemma User_insert_accepted (u : User) (s : State) :
  username u ≠ EmptyString → email u ≠ EmptyString → password u ≠ EmptyString →
  ¬ taken s (username u) (email u) →
  User_insert u s =
    (with_users (insert (fresh (dom (users s))) u) s,
     Value {| user_id := fresh (dom (users s)); user_doc := u; balance_modified := false |}).
Proof.
  intros Hn He Hp Hfree. unfold User_insert.
  rewrite decide_False by (intros [?|[?|?]]; done).
  rewrite decide_False; [done|].
  intros Hex. apply Exists_exists in Hex as (v & Hv & Hsame).
  apply list_elem_of_fmap in Hv as ([id v'] & -> & Hv). apply elem_of_map_to_list in Hv.
  apply Hfree. exists id, v'. split; [done|]. simpl in Hsame. tauto.
Qed.

(** Every way a registration can end. *)
Lemma register_cases (session : option ObjectId) (n e h p : string) (s s' : State)
    (session' : option ObjectId) (res : Response + Account) :
  post_register session n e h p s = (s', session', res) →
  (taken s n e ∧ s' = s ∧ session' = session ∧ res = inl UserAlreadyExists) ∨
  (¬ taken s n e ∧ (n = EmptyString ∨ e = EmptyString ∨ h = EmptyString) ∧
   s' = s ∧ session' = session ∧ res = inl InternalServerError) ∨
  (¬ taken s n e ∧ n ≠ EmptyString ∧ e ≠ EmptyString ∧ h ≠ EmptyString ∧
   users s !! fresh (dom (users s)) = None ∧
   s' = with_users (insert (fresh (dom (users s))) (new_user n e h p)) s ∧
   session' = Some (fresh (dom (users s))) ∧
   res = inr {| account_id := fresh (dom (users s)); account_username := n;
                account_email := e; account_balance := 0 |}).
Proof.
  unfold post_register, bind.
  destruct (User_findOne_spec (λ u, has_email e u ∨ has_username n u) s)
    as (found & -> & Hfound).
  destruct found as [d|].
  - unfold respond. intros [= <- <- <-]. left. split; [|done].
    destruct Hfound as (Hd & HP & _). by exists (user_id d), (user_doc d).
  - assert (Hfree : ¬ taken s n e).
    { intros (id & v & Hv & HP). by apply (Hfound id v). }
    fold (new_user n e h p).
    destruct (decide (n = EmptyString ∨ e = EmptyString ∨ h = EmptyString)) as [Hempty|Hfull].
    + unfold User_insert. rewrite decide_True by done.
      intros [= <- <- <-]. right; left. done.
    + rewrite User_insert_accepted; [|intros ?; apply Hfull; auto..|done].
      intros [= <- <- <-]. right; right.
      split_and!; try done; try (intros ?; apply Hfull; auto).
      apply fresh_id_unused.
Qed.

Section registration.
Context (s : State) (session : option ObjectId) (n e h p : string).
Hypothesis Hfree : ¬ taken s n e.
Hypothesis Hfields : n ≠ EmptyString ∧ e ≠ EmptyString ∧ h ≠ EmptyString.

(** X11: a registration with a username, an email and a password hash, none
    empty and neither name nor email taken, stores the new user under an
    [_id] that no stored user has, with a balance of 0; it leaves every
    other user, the log, the tickets, the timers and the games as they were,
    puts the new [_id] in the session and answers with the new account. *)
Theorem registration_creates_account :
  ∃ id s',
    post_register session n e h p s
      = (s', Some id, inr {| account_id := id; account_username := n;
                             account_email := e; account_balance := 0 |}) ∧
    users s !! id = None ∧
    users s' = <[id := new_user n e h p]> (users s) ∧
    balance (new_user n e h p) = 0 ∧
    transactions s' = transactions s ∧ tickets s' = tickets s ∧
    timers s' = timers s ∧ games s' = games s.
Proof.
  destruct (post_register session n e h p s) as [[s' session'] res] eqn:Hrun.
  apply register_cases in Hrun
    as [(Htaken & _)|[(_ & Hempty & _)|(_ & _ & _ & _ & Hnew & -> & -> & ->)]].
  - done.
  - destruct Hfields as (? & ? & ?). destruct Hempty as [?|[?|?]]; done.
  - exists (fresh (dom (users s))). eexists. split; [reflexivity|]. by split_and!.
Qed.
End registration.

Lemma registration_creates_account_witness :
  ∃ s',
    post_register None "bob" "bob@example.com" "h:secret" "0711111111" (one_account 100)
      = (s', Some 1%nat, inr {| account_id := 1%nat; account_username := "bob";
                                account_email := "bob@example.com";
                                account_balance := 0 |}) ∧
    users s' !! 0%nat = Some (alice 100).
Proof.
  destruct (registration_creates_account (one_account 100) None "bob" "bob@example.com"
              "h:secret" "0711111111") as (id & s' & Hrun & _ & Husers & _).
  - intros (i & v & Hv & Hsame). simpl in Hv.
    apply lookup_singleton_Some in Hv as [_ <-].
    destruct Hsame as [Hsame|Hsame]; discriminate Hsame.
  - split_and!; discriminate.
  - assert (id = 1%nat) as ->.
    { vm_compute in Hrun. by injection Hrun as _ <- _. }
    exists s'. split; [exact Hrun|]. rewrite Husers. reflexivity.
Defined.

(** X12: a registration that creates no account changes nothing, neither the
    database nor the session. It answers "User already exists" (400) exactly
    when a stored user has the email or the username of the request, and
    otherwise "Internal server error" (500), for a required field that is
    empty. *)
Theorem registration_refused (s : State) (session : option ObjectId) (n e h p : string)
    (s' : State) (session' : option ObjectId) (r : Response) :
  post_register session n e h p s = (s', session', inl r) →
  s' = s ∧ session' = session ∧
  (taken s n e ∧ r = UserAlreadyExists ∨
   ¬ taken s n e ∧ r = InternalServerError ∧
   (n = EmptyString ∨ e = EmptyString ∨ h = EmptyString)).
Proof.
  intros Hrun. apply register_cases in Hrun
    as [(Htaken & -> & -> & [= ->])|[(Hfree & Hempty & -> & -> & [= ->])|(_ & _ & _ & _ & _ & _ & _ & ?)]];
    [by split_and!; auto..|done].
Qed.

Lemma registration_refused_witness :
  post_register (Some 7%nat) "alice" "other@example.com" "h:secret" "0711111111"
    (one_account 100) = (one_account 100, Some 7%nat, inl UserAlreadyExists).
Proof.
  destruct (post_register (Some 7%nat) "alice" "other@example.com" "h:secret" "0711111111"
              (one_account 100)) as [[s' session'] [r|a]] eqn:Hrun;
    [|vm_compute in Hrun; discriminate Hrun].
  destruct (registration_refused _ _ _ _ _ _ _ _ _ Hrun) as (-> & -> & Hwhy).
  destruct Hwhy as [(_ & ->)|(_ & _ & Hempty)]; [reflexivity|].
  destruct Hempty as [?|[?|?]]; discriminate.
Defined.

(** X13: a login changes no stored data. For an email that no stored user
    has it answers "Invalid credentials" (400), whatever the password field
    holds. For the email of a stored user it answers "Internal server error"
    (500) when the body has no password string, the same "Invalid
    credentials" when [bcrypt.compare] rejects the password, and otherwise
    succeeds: it puts that user's [_id] in the session and answers with the
    account. Every failure leaves the session as it was. *)
Theorem login_outcome (compare : string → string → bool) (session : option ObjectId)
    (e : string) (pw : option string) (s : State) :
  ∃ session' res,
    post_login compare session e pw s = (s, session', res) ∧
    ((res = inl InvalidCredentials ∧ session' = session ∧
      ((∀ id u, users s !! id = Some u → email u ≠ e) ∨
       (∃ id u given, users s !! id = Some u ∧ email u = e ∧ pw = Some given ∧
                      compare given (password u) = false))) ∨
     (res = inl InternalServerError ∧ session' = session ∧ pw = None ∧
      ∃ id u, users s !! id = Some u ∧ email u = e) ∨
     (∃ id u given, users s !! id = Some u ∧ email u = e ∧ pw = Some given ∧
              compare given (password u) = true ∧
              session' = Some id ∧
              res = inr {| account_id := id; account_username := username u;
                           account_email := email u; account_balance := balance u |})).
Proof.
  unfold post_login, bind.
  destruct (User_findOne_spec (has_email e) s) as (found & -> & Hfound).
  destruct found as [d|].
  - destruct Hfound as (Hd & He & _). destruct pw as [given|].
    + destruct (compare given (password (user_doc d))) eqn:Hcmp.
      * eexists _, _. split; [reflexivity|]. right; right.
        by exists (user_id d), (user_doc d), given.
      * eexists _, _. split; [reflexivity|]. left. split_and!; [done..|].
        right. by exists (user_id d), (user_doc d), given.
    + eexists _, _. split; [reflexivity|]. right; left. split_and!; [done..|].
      by exists (user_id d), (user_doc d).
  - eexists _, _. split; [reflexivity|]. left. split_and!; [done..|].
    left. intros id u Hu He. by apply (Hfound id u).
Qed.

(** X14: who has registered can log in. After a registration that created an
    account, a login with the email of the registration and a password that
    [bcrypt.compare] accepts against the hash that was stored answers with
    the same account and puts its [_id] in the session. *)
Theorem registered_user_can_login (compare : string → string → bool)
    (session session2 : option ObjectId) (n e h p pw : string) (s s' : State)
    (session' : option ObjectId) (account : Account) :
  post_register session n e h p s = (s', session', inr account) →
  compare pw h = true →
  session' = Some (account_id account) ∧
  post_login compare session2 e (Some pw) s'
    = (s', Some (account_id account), inr account).
Proof.
  intros Hrun Hcmp. apply register_cases in Hrun
    as [(_ & _ & _ & ?)|[(_ & _ & _ & _ & ?)|(Hfree & _ & _ & _ & Hnew & -> & -> & [= ->])]];
    [done..|]. split; [done|].
  set (id := fresh (dom (users s))) in *.
  unfold post_login, bind.
  destruct (User_findOne_spec (has_email e) (with_users (insert id (new_user n e h p)) s))
    as (found & -> & Hfound).
  destruct found as [d|].
  - destruct Hfound as (Hd & He & _). destruct d as [i doc m]. simpl in Hd, He.
    apply lookup_insert_Some in Hd as [[Hid Hdoc]|[_ Hd]].
    + subst i doc. simpl. by rewrite Hcmp.
    + exfalso. apply Hfree. exists i, doc. split; [done|by left].
  - exfalso. apply (Hfound id (new_user n e h p)); [|done].
    simpl. apply lookup_insert_eq.
Qed.

Lemma registered_user_can_login_witness :
  ∃ s',
    post_register None "bob" "bob@example.com" "h:secret" "0711111111" (one_account 100)
      = (s', Some 1%nat, inr {| account_id := 1%nat; account_username := "bob";
                                account_email := "bob@example.com";
                                account_balance := 0 |}) ∧
    post_login sample_compare None "bob@example.com" (Some "secret") s'
      = (s', Some 1%nat, inr {| account_id := 1%nat; account_username := "bob";
                                account_email := "bob@example.com";
                                account_balance := 0 |}).
Proof.
  destruct (post_register None "bob" "bob@example.com" "h:secret" "0711111111"
              (one_account 100)) as [[s' session'] res] eqn:Hrun.
  assert (session' = Some 1%nat ∧
          res = inr {| account_id := 1%nat; account_username := "bob";
                       account_email := "bob@example.com"; account_balance := 0 |})
    as [-> ->].
  { vm_compute in Hrun. by injection Hrun as _ <- <-. }
  exists s'. split; [reflexivity|].
  by apply (registered_user_can_login sample_compare None None _ _ _ _ "secret" _ _ _ _ Hrun).
Defined.

(** * Invariants of the database *)

(** ** What each call does to the state *)

Lemma request_shape (e : Event) (s s' : State) (res : Response) :
  handle e s = (s', Some res) →
  s' = s ∨
  (∃ uid u delta recorded minted,
     users s !! uid = Some u ∧ s' = written uid u delta recorded minted s ∧
     (length recorded ≤ 1)%nat ∧
     Forall (λ t, userId t = uid ∧ status t = completed ∧
                  transactionId t ∉ identifiers s) recorded ∧
     Forall (λ t, ticket_fresh t ∧ ticket_userId t = uid ∧
                  is_Some (games s !! ticket_gameId t)) minted ∧
     NoDup (ticketCode <$> minted) ∧
     (∀ c, c ∈ ticketCode <$> minted → c ∉ ticketCode <$> tickets s)) ∨
  (∃ uid u amt phone rnd now,
     users s !! uid = Some u ∧ amt ≤ balance u ∧ ("wd_" +:+ rnd ∉ identifiers s) ∧
     s' = queued uid u amt phone rnd now s).
Proof.
  assert (Hnone : ∀ c, c ∈ ticketCode <$> [] → c ∉ ticketCode <$> tickets s).
  { intros c Hc. by apply elem_of_nil in Hc. }
  destruct e as [session|session a tid now|session amt phone rnd now
                |session gid quantity rnd codes now|session gid r rnd now|]; simpl.
  - destruct session as [uid|]; intros [= <- _]; by left.
  - destruct (post_deposit session _ _ _ s) as [s1 res1] eqn:Hrun. intros [= <- <-].
    destruct session as [uid|]; [|injection Hrun as <- _; by left].
    apply deposit_cases in Hrun as [(-> & _)|(u & Hu & Hend)]; [by left|].
    right; left. exists uid, u, a.
    destruct Hend as [(-> & -> & _)|(-> & _ & Hfresh & _)].
    + exists [], []. split_and!; try done; try constructor. simpl. lia.
    + eexists [_], []. split_and!; try done; try constructor; try done; constructor.
  - destruct (post_withdraw session _ _ _ _ s) as [s1 res1] eqn:Hrun. intros [= <- <-].
    destruct session as [uid|]; [|injection Hrun as <- _; by left].
    apply withdraw_cases in Hrun as [->|(u & Hu & Hle & Hfresh & _ & ->)]; [by left|].
    right; right. by exists uid, u, amt, phone, rnd, now.
  - destruct (post_tickets_purchase session _ _ _ _ _ s) as [s1 res1] eqn:Hrun.
    intros [= <- <-].
    destruct session as [uid|]; [|injection Hrun as <- _; by left].
    destruct gid as [gid| |];
      [|rewrite purchase_no_id in Hrun by auto; injection Hrun as <- _; by left..].
    pose proof (purchase_tickets _ _ _ _ _ _ _ _ _ Hrun)
      as (minted' & Htk & _ & Hdup & Hnew & Hmade & _).
    apply purchase_cases in Hrun
      as [[-> _]|(u & g & recorded & minted & Hu & Hg & Hle & -> & Hend)]; [by left|].
    simpl in Htk. apply app_inv_head in Htk as ->.
    right; left. exists uid, u, (- (price g * default 1 quantity)), recorded, minted'.
    split_and!; [done|done| | | |done|done].
    + destruct Hend as [(-> & _)|[(-> & _)|(-> & _)]]; simpl; lia.
    + destruct Hend as [(-> & _)|[(-> & Hfresh & _)|(-> & Hfresh & _)]];
        constructor; try done; constructor.
    + destruct Hmade as [->|(u' & g' & _ & Hg' & Hall)]; [constructor|].
      eapply Forall_impl; [exact Hall|]. intros t (Huid & Hgid & _ & _ & Hst & Hpr).
      split_and!; [by split|done|]. rewrite Hgid. by eexists.
  - destruct (post_games_spin session _ _ _ _ s) as [s1 res1] eqn:Hrun. intros [= <- <-].
    destruct session as [uid|]; [|injection Hrun as <- _; by left].
    destruct gid as [gid| |];
      [|rewrite spin_no_id in Hrun by auto; injection Hrun as <- _; by left..].
    apply spin_cases in Hrun as [->|(u & g & p & Hu & Hg & Hpos & _ & Hend)]; [by left|].
    right; left. exists uid, u, (prize_amount p).
    destruct Hend as [(-> & -> & _)|(-> & Hfresh & _)].
    + exists [], []. split_and!; try done; try constructor. simpl. lia.
    + eexists [_], []. split_and!; try done; try constructor; try done; constructor.
  - discriminate.
Qed.

(** ** The database stays sound *)

Lemma users_kept_insert (s : State) (id : ObjectId) (u : User) (k : ObjectId) :
  is_Some (users s !! k) → is_Some (<[id := u]> (users s) !! k).
Proof. intros Hk. apply lookup_insert_is_Some'. by right. Qed.

Lemma sound_written (s : State) uid u delta recorded minted :
  sound s → users s !! uid = Some u →
  (length recorded ≤ 1)%nat →
  Forall (λ t, userId t = uid ∧ status t = completed ∧
               transactionId t ∉ identifiers s) recorded →
  Forall (λ t, ticket_fresh t ∧ ticket_userId t = uid ∧
               is_Some (games s !! ticket_gameId t)) minted →
  NoDup (ticketCode <$> minted) →
  (∀ c, c ∈ ticketCode <$> minted → c ∉ ticketCode <$> tickets s) →
  sound (written uid u delta recorded minted s).
Proof.
  intros (Hok & Hst & Hpend & Hids & Hcodes & Hfresh & Hlogref & Htkref)
    Hu Hlen Hrec Hminted Hdup Hnew.
  rewrite Forall_forall in Hrec. rewrite Forall_forall in Hminted.
  unfold sound, references_ok. split_and!; simpl.
  - by apply timers_ok_written.
  - apply Forall_app. split; [done|]. apply Forall_forall. intros t Ht.
    left. by apply Hrec.
  - intros i tx Htx Hp. simpl in Htx |- *.
    apply lookup_app_Some in Htx as [Htx|[_ Htx]]; [by eapply Hpend|].
    apply list_elem_of_lookup_2, Hrec in Htx as (_ & Hc & _). congruence.
  - unfold identifiers. simpl. rewrite fmap_app. apply NoDup_app. split; [done|]. split.
    + intros c Hc Hin. apply list_elem_of_fmap in Hin as (t & -> & Ht).
      by apply Hrec in Ht as (_ & _ & Hf).
    + destruct recorded as [|t [|t' rest]]; [constructor|apply NoDup_singleton|simpl in Hlen; lia].
  - rewrite fmap_app. apply NoDup_app. split; [done|]. split; [|done].
    intros c Hc Hin. by apply Hnew in Hin.
  - apply Forall_app. split; [done|]. apply Forall_forall. intros t Ht. by apply Hminted.
  - apply Forall_app. split.
    + eapply Forall_impl; [exact Hlogref|]. intros tx. apply users_kept_insert.
    + apply Forall_forall. intros t Ht. apply Hrec in Ht as (-> & _).
      apply lookup_insert_is_Some'. by left.
  - apply Forall_app. split.
    + eapply Forall_impl; [exact Htkref|]. intros t [? ?]. split; [|done].
      by apply users_kept_insert.
    + apply Forall_forall. intros t Ht. apply Hminted in Ht as (_ & -> & Hg).
      split; [|done]. apply lookup_insert_is_Some'. by left.
Qed.

Lemma sound_queued (s : State) uid u amt phone rnd now :
  sound s → users s !! uid = Some u → amt ≤ balance u →
  "wd_" +:+ rnd ∉ identifiers s →
  sound (queued uid u amt phone rnd now s).
Proof.
  intros (Hok & Hst & Hpend & Hids & Hcodes & Hfresh & Hlogref & Htkref) Hu Hle Hnew.
  unfold sound, references_ok. split_and!; simpl; try done.
  - by apply timers_ok_queued.
  - apply Forall_app. split; [done|]. apply Forall_singleton. by right.
  - intros i tx Htx Hp. simpl in Htx |- *. apply lookup_snoc_Some in Htx as [[_ Htx]|[-> _]].
    + destruct (Hpend i tx Htx Hp) as (t & Ht & Hid). exists t. split; [|done].
      apply elem_of_app. by left.
    + eexists. split; [apply elem_of_app; right; apply list_elem_of_here|done].
  - unfold identifiers, queued. simpl. rewrite fmap_app. apply NoDup_app.
    split; [done|]. split; [|apply NoDup_singleton].
    intros c Hc Hin. apply list_elem_of_singleton in Hin. by subst c.
  - apply Forall_app. split; [done|]. apply Forall_singleton. simpl. by eexists.
Qed.

Lemma sound_fired (s : State) : sound s → sound (timer_fires s).
Proof.
  intros (Hok & Hst & Hpend & Hids & Hcodes & Hfresh & Hlogref & Htkref).
  destruct (timers s) as [|t later] eqn:Htimers.
  { unfold timer_fires. rewrite Htimers. by split_and!. }
  pose proof (timers_ok_fired s Hok) as Hok'.
  destruct Hok as [Hall Hdup]. rewrite Htimers in Hall, Hdup.
  apply Forall_cons in Hall as [Ht _].
  rewrite fmap_cons in Hdup. apply NoDup_cons in Hdup as [Hnotin _].
  destruct (timer_fires_effect s t later Htimers Ht) as (u & Hu & Heq).
  rewrite Heq in Hok' |- *. clear Heq.
  assert (Hkept : ∀ k, is_Some (users s !! k) →
            is_Some ((if decide (timer_amount t = 0) then users s
                      else <[user_id (timer_user t) :=
                               set_balance (balance (user_doc (timer_user t)) - timer_amount t) u]>
                             (users s)) !! k)).
  { intros k Hk. destruct (decide (timer_amount t = 0)); [done|by apply users_kept_insert]. }
  unfold sound, references_ok. split_and!; simpl; try done.
  - apply Forall_alter; [done|]. intros tx _ _. by left.
  - intros i tx Htx Hp. simpl in Htx |- *.
    destruct (decide (transaction_id (timer_transaction t) = i)) as [<-|Hne].
    + rewrite list_lookup_alter_eq in Htx. destruct (transactions s !! _); [|done].
      simpl in Htx. injection Htx as <-. done.
    + rewrite list_lookup_alter_ne in Htx by done.
      destruct (Hpend i tx Htx Hp) as (t' & Ht' & Hid). exists t'. split; [|done].
      rewrite Htimers in Ht'. apply elem_of_cons in Ht' as [->|Ht']; [done|done].
  - unfold identifiers. simpl. by rewrite identifiers_alter.
  - apply Forall_alter; [|done]. eapply Forall_impl; [exact Hlogref|]. intros tx. apply Hkept.
  - eapply Forall_impl; [exact Htkref|]. intros tk [? ?]. split; [|done]. by apply Hkept.
Qed.

Lemma sound_registered (s : State) (id : ObjectId) (u : User) :
  sound s → sound (with_users (insert id u) s).
Proof.
  intros (Hok & Hst & Hpend & Hids & Hcodes & Hfresh & Hlogref & Htkref).
  unfold sound, references_ok. split_and!; simpl; try done.
  - destruct Hok as [Hall Hdup]. split; [|done]. simpl.
    eapply Forall_impl; [exact Hall|]. intros t Ht.
    apply (timer_ok_mono s); [done| |done]. intros k. apply users_kept_insert.
  - eapply Forall_impl; [exact Hlogref|]. intros tx. apply users_kept_insert.
  - eapply Forall_impl; [exact Htkref|]. intros tk [? ?]. split; [|done].
    by apply users_kept_insert.
Qed.

Lemma sound_serve (c : Call) (s : State) : sound s → sound (serve c s).
Proof.
  intros Hs. destruct c as [e|session n e h p]; simpl.
  - destruct (handle_request e s) as [[_ ->]|[res Hrun]]; [by apply sound_fired|].
    apply request_shape in Hrun
      as [->|[(uid & u & delta & recorded & minted & Hu & -> & Hlen & Hrec & Hmint & Hdup & Hnew)
             |(uid & u & amt & phone & rnd & now & Hu & Hle & Hfresh & ->)]].
    + done.
    + by apply sound_written.
    + by apply sound_queued.
  - destruct (post_register session n e h p s) as [[s' session'] res] eqn:Hrun. simpl.
    apply register_cases in Hrun
      as [(_ & -> & _)|[(_ & _ & -> & _)|(_ & _ & _ & _ & _ & -> & _)]]; [done..|].
    by apply sound_registered.
Qed.

Lemma initial_sound (s : State) : initial s → sound s.
Proof.
  intros Hinit. pose proof (initial_timers_ok s Hinit) as Hok.
  destruct Hinit as (Hlog & Htk & Htimers & _).
  unfold sound, references_ok, pending_have_timers, identifiers.
  rewrite Hlog, Htk. split_and!; try done; try constructor.
Qed.

Lemma sound_serve_all (cs : list Call) (s : State) : sound s → sound (serve_all cs s).
Proof.
  revert s. induction cs as [|c cs IH]; intros s Hs; [done|].
  simpl. apply IH. by apply sound_serve.
Qed.

Lemma served_sound (s : State) : served s → sound s.
Proof. intros (s0 & cs & Hinit & ->). by apply sound_serve_all, initial_sound. Qed.

Lemma served_intro (cs : list Call) (s0 : State) : initial s0 → served (serve_all cs s0).
Proof. intros Hinit. by exists s0, cs. Qed.

Lemma same_key_same_element {A B : Type} (f : A → B) (l : list A) (x y : A) :
  NoDup (f <$> l) → x ∈ l → y ∈ l → f x = f y → x = y.
Proof.
  induction l as [|a l IH]; intros Hdup Hx Hy Hxy; [by apply elem_of_nil in Hx|].
  rewrite fmap_cons in Hdup. apply NoDup_cons in Hdup as [Ha Hdup].
  apply elem_of_cons in Hx as [->|Hx]; apply elem_of_cons in Hy as [->|Hy].
  - done.
  - exfalso. apply Ha. rewrite Hxy. by apply list_elem_of_fmap_2.
  - exfalso. apply Ha. rewrite <- Hxy. by apply list_elem_of_fmap_2.
  - by apply IH.
Qed.

(** X15: in every state the server passes through, a stored record is
    [completed] or a [pending] withdrawal, never [failed]; a [pending] record
    is the transaction of exactly one queued callback, of the same amount; and
    the record of a queued callback is still [pending]. *)
Theorem record_lifecycle (s : State) :
  served s →
  (∀ i tx, transactions s !! i = Some tx →
     status tx ≠ failed ∧
     (status tx = completed ∨
      status tx = pending ∧ type tx = withdrawal ∧
      ∃ t, t ∈ timers s ∧ transaction_id (timer_transaction t) = i ∧
           timer_amount t = amount tx ∧
           ∀ t', t' ∈ timers s → transaction_id (timer_transaction t') = i → t' = t)) ∧
  (∀ t, t ∈ timers s →
     ∃ tx, transactions s !! transaction_id (timer_transaction t) = Some tx ∧
           status tx = pending ∧ type tx = withdrawal ∧ amount tx = timer_amount t).
Proof.
  intros Hs. apply served_sound in Hs as ([Hall Hdup] & Hst & Hpend & _).
  rewrite Forall_forall in Hall. split.
  - intros i tx Htx.
    assert (Hok : status_ok tx).
    { rewrite Forall_forall in Hst. by eapply Hst, list_elem_of_lookup_2. }
    destruct Hok as [Hc|[Hp Hw]]; [split; [congruence|by left]|].
    split; [congruence|]. right. split_and!; [done..|].
    destruct (Hpend i tx Htx Hp) as (t & Ht & Hid). exists t. split_and!; [done..| |].
    + destruct (Hall t Ht) as (_ & _ & _ & _ & _ & tx' & Htx' & _ & _ & Hamt & _).
      rewrite Hid, Htx in Htx'. by injection Htx' as <-.
    + intros t' Ht' Hid'.
      apply (same_key_same_element (λ t, transaction_id (timer_transaction t)) (timers s));
        [done..|congruence].
  - intros t Ht. destruct (Hall t Ht) as (_ & _ & _ & _ & _ & tx & Htx & Hp & Hw & Hamt & _).
    by exists tx.
Qed.

Lemma record_lifecycle_witness :
  let s := serve_all (Ledger <$> funded_before_settlement) (one_account 0) in
  (∀ i tx, transactions s !! i = Some tx →
     status tx ≠ failed ∧
     (status tx = completed ∨
      status tx = pending ∧ type tx = withdrawal ∧
      ∃ t, t ∈ timers s ∧ transaction_id (timer_transaction t) = i ∧
           timer_amount t = amount tx ∧
           ∀ t', t' ∈ timers s → transaction_id (timer_transaction t') = i → t' = t)) ∧
  (∀ t, t ∈ timers s →
     ∃ tx, transactions s !! transaction_id (timer_transaction t) = Some tx ∧
           status tx = pending ∧ type tx = withdrawal ∧ amount tx = timer_amount t).
Proof.
  exact (record_lifecycle _
           (served_intro (Ledger <$> funded_before_settlement) (one_account 0)
              initial_one_account)).
Defined.

(** X16: no route changes or removes a ticket once it is bought: in every
    state the server passes through, the ticket codes are pairwise distinct,
    every ticket is still [active] with no prize, and every ticket belongs to
    a stored user and a stored game. *)
Theorem tickets_as_bought (s : State) :
  served s →
  NoDup (ticketCode <$> tickets s) ∧
  ∀ t, t ∈ tickets s →
    ticket_status t = ticket_active ∧ prizeWon t = 0 ∧
    is_Some (users s !! ticket_userId t) ∧ is_Some (games s !! ticket_gameId t).
Proof.
  intros Hs. apply served_sound in Hs as (_ & _ & _ & _ & Hcodes & Hfresh & _ & Href).
  split; [done|]. intros t Ht.
  rewrite Forall_forall in Hfresh. rewrite Forall_forall in Href.
  destruct (Hfresh t Ht) as [? ?]. destruct (Href t Ht) as [? ?]. done.
Qed.

Lemma tickets_as_bought_witness :
  let s := serve_all (Ledger <$> spent_before_settlement) (one_account 0) in
  NoDup (ticketCode <$> tickets s) ∧
  ∀ t, t ∈ tickets s →
    ticket_status t = ticket_active ∧ prizeWon t = 0 ∧
    is_Some (users s !! ticket_userId t) ∧ is_Some (games s !! ticket_gameId t).
Proof.
  exact (tickets_as_bought _
           (served_intro (Ledger <$> spent_before_settlement) (one_account 0)
              initial_one_account)).
Defined.

(** ** What a call can do to the database *)

Lemma serve_users (c : Call) (s : State) : timers_ok s → users_step s (serve c s).
Proof.
  intros Hok. destruct c as [e|session n e h p]; simpl.
  - destruct (handle_request e s) as [[_ ->]|[res Hrun]].
    + destruct (timers s) as [|t later] eqn:Htimers.
      { unfold timer_fires. rewrite Htimers. by left. }
      destruct Hok as [Hall _]. rewrite Htimers in Hall. apply Forall_cons in Hall as [Ht _].
      destruct (timer_fires_effect s t later Htimers Ht) as (u & Hu & ->). simpl.
      destruct (decide (timer_amount t = 0)); [by left|].
      right; left. by eexists _, u, _.
    + apply request_shape in Hrun
        as [->|[(uid & u & delta & recorded & minted & Hu & -> & _)
               |(uid & u & amt & phone & rnd & now & Hu & _ & _ & ->)]].
      * by left.
      * right; left. by eexists uid, u, _.
      * by left.
  - destruct (post_register session n e h p s) as [[s' session'] res] eqn:Hrun. simpl.
    apply register_cases in Hrun
      as [(_ & -> & _)|[(_ & _ & -> & _)|(Hfree & _ & _ & _ & Hnew & -> & _)]];
      [by left..|].
    right; right. by exists n, e, h, p.
Qed.

Lemma serve_rest (c : Call) (s : State) :
  timers_ok s →
  games (serve c s) = games s ∧
  (∃ minted, tickets (serve c s) = tickets s ++ minted) ∧
  ∀ i tx, transactions s !! i = Some tx →
    ∃ st, transactions (serve c s) !! i = Some (set_status st tx).
Proof.
  intros Hok. destruct c as [e|session n e h p].
  - change (serve (Ledger e) s) with (step e s). split_and!.
    + destruct (handle_request e s) as [[_ Hstep]|[res Hrun]].
      * rewrite Hstep. destruct (timers s) as [|t later] eqn:Htimers.
        { unfold timer_fires. by rewrite Htimers. }
        destruct Hok as [Hall _]. rewrite Htimers in Hall.
        apply Forall_cons in Hall as [Ht _].
        by destruct (timer_fires_effect s t later Htimers Ht) as (u & Hu & ->).
      * unfold step. rewrite Hrun. simpl. apply request_shape in Hrun
          as [->|[(uid & u & delta & recorded & minted & _ & -> & _)
                 |(uid & u & amt & phone & rnd & now & _ & _ & _ & ->)]]; done.
    + destruct (handle_request e s) as [[_ Hstep]|[res Hrun]].
      * rewrite Hstep. exists []. rewrite app_nil_r.
        destruct (timers s) as [|t later] eqn:Htimers.
        { unfold timer_fires. by rewrite Htimers. }
        destruct Hok as [Hall _]. rewrite Htimers in Hall.
        apply Forall_cons in Hall as [Ht _].
        by destruct (timer_fires_effect s t later Htimers Ht) as (u & Hu & ->).
      * unfold step. rewrite Hrun. simpl. apply request_shape in Hrun
          as [->|[(uid & u & delta & recorded & minted & _ & -> & _)
                 |(uid & u & amt & phone & rnd & now & _ & _ & _ & ->)]].
        -- exists []. by rewrite app_nil_r.
        -- by exists minted.
        -- exists []. by rewrite app_nil_r.
    + intros i tx Htx. by apply records_kept.
  - simpl. destruct (post_register session n e h p s) as [[s' session'] res] eqn:Hrun. simpl.
    assert (Hrest : games s' = games s ∧ tickets s' = tickets s ∧
                    transactions s' = transactions s).
    { apply register_cases in Hrun
        as [(_ & -> & _)|[(_ & _ & -> & _)|(_ & _ & _ & _ & _ & -> & _)]]; done. }
    destruct Hrest as (-> & -> & ->). split_and!; [done| |].
    + exists []. by rewrite app_nil_r.
    + intros i tx Htx. exists (status tx). by rewrite set_status_same.
Qed.

(** X17: no call deletes anything. In a state the server passes through, a
    call leaves the games as they are, keeps every ticket as it is and in its
    place, keeps every record in its place with at most its status changed,
    and keeps every user with at most the balance changed. *)
Theorem nothing_deleted (c : Call) (s : State) :
  served s →
  games (serve c s) = games s ∧
  (∃ minted, tickets (serve c s) = tickets s ++ minted) ∧
  (∀ i tx, transactions s !! i = Some tx →
     ∃ st, transactions (serve c s) !! i = Some (set_status st tx)) ∧
  (∀ k u, users s !! k = Some u →
     ∃ b, users (serve c s) !! k = Some (set_balance b u)).
Proof.
  intros Hs. apply served_sound in Hs as (Hok & _).
  destruct (serve_rest c s Hok) as (Hgames & Htickets & Hlog).
  split_and!; [done..|]. intros k u Hk.
  destruct (serve_users c s Hok)
    as [->|[(uid & v & b & Hv & ->)|(n & e & h & p & _ & Hnew & ->)]].
  - exists (balance u). by rewrite set_balance_same.
  - destruct (decide (uid = k)) as [->|Hne].
    + exists b. rewrite lookup_insert_eq. congruence.
    + exists (balance u). by rewrite lookup_insert_ne, set_balance_same.
  - exists (balance u). simpl. rewrite lookup_insert_ne, set_balance_same; [done|].
    intros Heq. rewrite Heq in Hnew. congruence.
Qed.

Lemma nothing_deleted_witness :
  let s := serve_all (Ledger <$> funded_before_settlement) (one_account 0) in
  games (serve (Ledger TimerFires) s) = games s ∧
  (∃ minted, tickets (serve (Ledger TimerFires) s) = tickets s ++ minted) ∧
  (∀ i tx, transactions s !! i = Some tx →
     ∃ st, transactions (serve (Ledger TimerFires) s) !! i = Some (set_status st tx)) ∧
  (∀ k u, users s !! k = Some u →
     ∃ b, users (serve (Ledger TimerFires) s) !! k = Some (set_balance b u)).
Proof.
  exact (nothing_deleted (Ledger TimerFires) _
           (served_intro (Ledger <$> funded_before_settlement) (one_account 0)
              initial_one_account)).
Defined.

Lemma accounts_unique_step (s s' : State) :
  users_step s s' → accounts_unique s → accounts_unique s'.
Proof.
  intros [Heq|[(uid & u & b & Hu & Heq)|(n & e & h & p & Hfree & Hnew & ->)]] Huniq.
  - unfold accounts_unique. by rewrite Heq.
  - assert (Hback : ∀ k w, users s' !! k = Some w →
              ∃ w0, users s !! k = Some w0 ∧ email w0 = email w ∧ username w0 = username w).
    { intros k w. rewrite Heq. destruct (decide (uid = k)) as [->|Hne].
      - rewrite lookup_insert_eq. intros [= <-]. by exists u.
      - rewrite lookup_insert_ne by done. intros Hk. by exists w. }
    intros i j x y Hx Hy Hsame.
    apply Hback in Hx as (x0 & Hx0 & Hex & Hnx). apply Hback in Hy as (y0 & Hy0 & Hey & Hny).
    apply (Huniq i j x0 y0); [done..|]. destruct Hsame; [left|right]; congruence.
  - intros i j x y. simpl.
    destruct (decide (fresh (dom (users s)) = i)) as [<-|Hi];
      destruct (decide (fresh (dom (users s)) = j)) as [<-|Hj]; [done| | |].
    + rewrite lookup_insert_eq, lookup_insert_ne by done. intros [= <-] Hy Hsame.
      exfalso. apply Hfree. exists j, y. split; [done|]. unfold has_email, has_username.
      simpl in Hsame. destruct Hsame; [left|right]; congruence.
    + rewrite lookup_insert_eq, lookup_insert_ne by done. intros Hx [= <-] Hsame.
      exfalso. apply Hfree. exists i, x. split; [done|]. unfold has_email, has_username.
      simpl in Hsame. destruct Hsame; [left|right]; congruence.
    + rewrite !lookup_insert_ne by done. apply Huniq.
Qed.

(** X18: when no two of the accounts the server starts with share an email or
    a username, no two stored accounts ever do: a registration is refused
    when either is taken, and no other route writes them. *)
Theorem accounts_stay_unique (s0 : State) (cs : list Call) :
  initial s0 → accounts_unique s0 → accounts_unique (serve_all cs s0).
Proof.
  intros Hinit. apply initial_sound in Hinit. revert s0 Hinit.
  induction cs as [|c cs IH]; intros s Hs Huniq; [done|].
  simpl. apply IH; [by apply sound_serve|].
  apply (accounts_unique_step s); [|done]. apply serve_users. by destruct Hs.
Qed.

Lemma initial_empty_database : initial empty_database.
Proof. by split_and!. Qed.

Lemma accounts_stay_unique_witness :
  let s := serve_all [ Register None "alice" "alice@example.com" "h:secret" "0700000000";
                       Register None "alice" "other@example.com" "h:secret" "0711111111";
                       Register None "bob" "bob@example.com" "h:hidden" "0722222222";
                       Ledger (Deposit (Some 0%nat) 100 "PSP-1" 1) ] empty_database in
  accounts_unique s ∧ size (users s) = 2%nat.
Proof.
  split; [|by vm_compute].
  apply accounts_stay_unique; [exact initial_empty_database|].
  intros i j u v Hu. simpl in Hu. by apply lookup_empty_Some in Hu.
Defined.

Lemma filter_none {A : Type} (P : A → Prop) `{∀ x, Decision (P x)} (l : list A) :
  (∀ x, x ∈ l → ¬ P x) → filter P l = [].
Proof.
  induction l as [|a l IH]; intros Hl; [done|].
  rewrite filter_cons, decide_False by (apply Hl; left).
  apply IH. intros x Hx. apply Hl. by right.
Qed.

Lemma unreferenced_records (s : State) (id : ObjectId) :
  sound s → users s !! id = None →
  Transaction_find id (transactions s) = [] ∧ Ticket_find id (tickets s) = [] ∧
  net id (transactions s) = 0.
Proof.
  intros (_ & _ & _ & _ & _ & _ & Hlog & Htk) Hid.
  rewrite Forall_forall in Hlog. rewrite Forall_forall in Htk.
  assert (Hnone : ∀ tx, tx ∈ transactions s → userId tx ≠ id).
  { intros tx Htx Heq. apply Hlog in Htx as [u Hu]. congruence. }
  split_and!.
  - apply filter_none. exact Hnone.
  - apply filter_none. intros t Ht Heq. apply Htk in Ht as [[u Hu] _].
    unfold ObjectId in *. congruence.
  - unfold net, completed_credits, completed_debits.
    rewrite !filter_none; [done| |]; intros tx Htx (Heq & _); by apply (Hnone tx).
Qed.

(** X19: an account that a registration has just created is empty. In a
    state the server passes through, a registration that answers with an
    account took an [_id] no stored user had; right after it the balance
    route answers 0 for that [_id], and the transaction and ticket listings
    answer with nothing: no record and no ticket of an earlier user is
    attributed to the new account. *)
Theorem new_account_is_empty (s : State) (session : option ObjectId)
    (n e h p : string) (acct : Account) :
  served s →
  (post_register session n e h p s).2 = inr acct →
  let s' := (post_register session n e h p s).1.1 in
  users s !! account_id acct = None ∧
  get_balance (Some (account_id acct)) s' = (s', inr 0) ∧
  get_transactions (Some (account_id acct)) s' = (s', TransactionsOk []) ∧
  get_tickets (Some (account_id acct)) s' = (s', inr []).
Proof.
  intros Hs. apply served_sound in Hs.
  destruct (post_register session n e h p s) as [[s' session'] res] eqn:Hrun. simpl.
  intros ->. apply register_cases in Hrun
    as [(_ & _ & _ & [=])|[(_ & _ & _ & _ & [=])|(_ & _ & _ & _ & Hnew & -> & _ & [= ->])]].
  simpl. destruct (unreferenced_records s _ Hs Hnew) as (Hlog & Htk & _).
  split_and!; [done| | |].
  - apply (get_balance_stored _ _ (new_user n e h p)). simpl. by rewrite lookup_insert_eq.
  - unfold get_transactions, requireAuth, try_catch, ret. simpl. by rewrite Hlog.
  - unfold get_tickets, requireAuth_json, try_catch_json, ret. simpl. by rewrite Htk.
Qed.

Lemma new_account_is_empty_witness :
  let s := serve_all (Ledger <$> spent_before_settlement) (one_account 0) in
  let s' := (post_register None "bob" "bob@example.com" "h:hidden" "0722222222" s).1.1 in
  users s !! 1%nat = None ∧
  get_balance (Some 1%nat) s' = (s', inr 0) ∧
  get_transactions (Some 1%nat) s' = (s', TransactionsOk []) ∧
  get_tickets (Some 1%nat) s' = (s', inr []).
Proof.
  exact (new_account_is_empty
           (serve_all (Ledger <$> spent_before_settlement) (one_account 0))
           None "bob" "bob@example.com" "h:hidden" "0722222222"
           {| account_id := 1%nat; account_username := "bob";
              account_email := "bob@example.com"; account_balance := 0 |}
           (served_intro (Ledger <$> spent_before_settlement) (one_account 0)
              initial_one_account)
           eq_refl).
Defined.

Lemma ledger_registered (s : State) (n e h p : string) :
  sound s → users s !! fresh (dom (users s)) = None →
  (balances_nonnegative s →
   balances_nonnegative (with_users (insert (fresh (dom (users s))) (new_user n e h p)) s)) ∧
  (ledger_agrees s →
   ledger_agrees (with_users (insert (fresh (dom (users s))) (new_user n e h p)) s)).
Proof.
  intros Hs Hnew. destruct (unreferenced_records s _ Hs Hnew) as (_ & _ & Hnet).
  split; intros Hold uid u; simpl.
  - intros [[<- <-]|[_ Hu]]%lookup_insert_Some; [done|by apply (Hold uid)].
  - intros [[<- <-]|[_ Hu]]%lookup_insert_Some; [|by apply (Hold uid)].
    simpl. fold (net (fresh (dom (users s))) (transactions s)). by rewrite Hnet.
Qed.

Lemma serve_registration (session : option ObjectId) (n e h p : string) (s : State) :
  serve (Register session n e h p) s = s ∨
  users s !! fresh (dom (users s)) = None ∧
  serve (Register session n e h p) s
    = with_users (insert (fresh (dom (users s))) (new_user n e h p)) s.
Proof.
  simpl. destruct (post_register session n e h p s) as [[s' session'] res] eqn:Hrun. simpl.
  apply register_cases in Hrun
    as [(_ & -> & _)|[(_ & _ & -> & _)|(_ & _ & _ & _ & Hnew & -> & _)]]; [by left..|by right].
Qed.

(** X20: accounts that come from registrations are as good as accounts of an
    [initial] state. Over any sequence of ledger events and registrations
    from an [initial] state, served one after the other: when every deposit
    is of a non-negative amount, no balance is negative at the end; and when
    the numbers stay within the integers the code computes exactly, every
    request that writes a balance has its record accepted by the log, and
    every settlement finds the balance its request read, every balance
    equals the completed credits less the completed debits of its user. *)
Theorem ledger_with_registrations (s0 : State) (cs : list Call) :
  initial s0 →
  (throughout (on_ledger deposit_nonnegative) cs s0 →
   balances_nonnegative (serve_all cs s0)) ∧
  (throughout (on_ledger exact) cs s0 → throughout (on_ledger accounted) cs s0 →
   ledger_agrees (serve_all cs s0)).
Proof.
  intros Hinit.
  assert (Hzero : balances_nonnegative s0 ∧ ledger_agrees s0).
  { destruct Hinit as (Hlog & _ & _ & Hzero). split; intros uid u Hu.
    - apply Hzero in Hu. lia.
    - rewrite Hlog. apply Hzero in Hu. by rewrite Hu. }
  apply initial_sound in Hinit. destruct Hzero as [Hpos Hagree]. split.
  - clear Hagree. revert s0 Hinit Hpos. induction cs as [|c cs IH]; intros s Hs Hpos Hcs; [done|].
    destruct Hcs as [Hc Hcs]. simpl. apply IH; [by apply sound_serve| |done].
    destruct c as [ev|session n e h p].
    + apply balances_nonnegative_step; [by destruct Hs|done..].
    + destruct (serve_registration session n e h p s) as [->|[Hnew ->]]; [done|].
      by apply ledger_registered.
  - intros _. clear Hpos. revert s0 Hinit Hagree.
    induction cs as [|c cs IH]; intros s Hs Hagree Hcs; [done|].
    destruct Hcs as [Hc Hcs]. simpl. apply IH; [by apply sound_serve| |done].
    destruct c as [ev|session n e h p].
    + apply ledger_agrees_step; [by destruct Hs|done..].
    + destruct (serve_registration session n e h p s) as [->|[Hnew ->]]; [done|].
      by apply ledger_registered.
Qed.

Lemma ledger_with_registrations_witness :
  (balances_nonnegative (serve_all registrations_day empty_database) ∧
   ledger_agrees (serve_all registrations_day empty_database)) ∧
  balance <$> users (serve_all registrations_day empty_database) !! 0%nat = Some 60 ∧
  balance <$> users (serve_all registrations_day empty_database) !! 1%nat = Some 0.
Proof.
  split; [|by vm_compute].
  destruct (ledger_with_registrations empty_database registrations_day
              initial_empty_database) as [Hpos Hagree].
  split.
  - apply Hpos. cbv [throughout registrations_day on_ledger deposit_nonnegative].
    split_and!; done.
  - apply Hagree.
    + cbv [throughout registrations_day on_ledger exact]. split_and!; by_evaluation.
    + cbv [throughout registrations_day on_ledger accounted].
      split_and!; by_evaluation.
Defined.

(** ** Ticket codes *)

Lemma toUpperCase_char_upper (c : ascii) :
  ¬ (97 ≤ nat_of_ascii (toUpperCase_char c) ≤ 122)%nat.
Proof.
  destruct c as [[] [] [] [] [] [] [] []]; vm_compute; intros [H1 H2];
    repeat (apply le_S_n in H1 || apply le_S_n in H2);
    first [by inversion H1 | by inversion H2].
Qed.

Lemma toUpperCase_length (s : string) : String.length (toUpperCase s) = String.length s.
Proof. induction s as [|c s IH]; [done|]. simpl. by rewrite IH. Qed.

Lemma toUpperCase_upper (s : string) (c : ascii) :
  c ∈ list_ascii_of_string (toUpperCase s) → ¬ (97 ≤ nat_of_ascii c ≤ 122)%nat.
Proof.
  induction s as [|a s IH]; simpl; [by intros ?%elem_of_nil|].
  intros [->|Hc]%elem_of_cons; [apply toUpperCase_char_upper|by apply IH].
Qed.

Lemma create_tickets_codes (n i : nat) (codes : nat → string) (uid gid : ObjectId)
    (dd now : Z) (made : list Ticket) (s s' : State) (l : list Ticket) :
  create_tickets n i codes uid gid dd now made s = (s', Value l) →
  ∃ minted, l = made ++ minted ∧
    ∀ k t, minted !! k = Some t → ticketCode t = "T" +:+ toUpperCase (codes (i + k)%nat).
Proof.
  revert i made s. induction n as [|n IH]; intros i made s.
  - simpl. unfold ret. intros [= _ <-]. exists []. by rewrite app_nil_r.
  - simpl. unfold bind.
    match goal with |- context [Ticket_insert ?t s] => set (ticket := t) end.
    destruct (Ticket_insert_cases ticket s) as [[_ ->]|[_ ->]]; [done|discriminate|].
    intros Hrun. apply IH in Hrun as (minted & -> & Hcodes).
    exists (ticket :: minted). rewrite <- app_assoc. split; [done|].
    intros [|k] t; simpl.
    + intros [= <-]. by rewrite Nat.add_0_r.
    + intros Ht. apply Hcodes in Ht. by rewrite Nat.add_succ_r.
Qed.

(** X21: the code of a ticket is ["T"] followed by the random string in
    upper case. In the answer of a successful purchase the ticket at position
    [k] carries the code made from the [k]-th random string; the code is one
    character longer than that string and holds no lower-case letter. *)
Theorem ticket_codes (s : State) (uid gid : ObjectId) (quantity : option Z)
    (rnd : string) (codes : nat → string) (now : Z) (s' : State)
    (minted : list Ticket) (b : Z) :
  post_tickets_purchase (Some uid) (id_of gid) quantity rnd codes now s = (s', PurchaseOk minted b) →
  ∀ k t, minted !! k = Some t →
    ticketCode t = "T" +:+ toUpperCase (codes k) ∧
    String.length (ticketCode t) = S (String.length (codes k)) ∧
    ∀ c, c ∈ list_ascii_of_string (ticketCode t) → ¬ (97 ≤ nat_of_ascii c ≤ 122)%nat.
Proof.
  intros Hrun.
  assert (Hcodes : ∀ k t, minted !! k = Some t →
            ticketCode t = "T" +:+ toUpperCase (codes k)).
  { revert Hrun. route_unfold.
    destruct (users s !! uid) as [u|] eqn:Hu; simpl; [|discriminate].
    destruct (games s !! gid) as [g|] eqn:Hg; simpl; [|discriminate].
    destruct (balance u <? price g * default 1 quantity); [by intros [= _ ?]|].
    rewrite save_assigned by done. simpl.
    match goal with |- context [Transaction_insert ?t ?s1] =>
      destruct (Transaction_insert_cases t s1) as [-> | ->] end; [by intros [= _ ?]|].
    match goal with |- context [create_tickets ?n 0 codes uid gid ?dd now [] ?s2] =>
      destruct (create_tickets_made n 0 codes uid gid dd now [] s2)
        as (made & o & Hmade & _ & _ & _ & Ho) end.
    rewrite Hmade. destruct o as [l| |]; [|done|by intros [= _ ?]].
    intros [= _ <- _]. apply create_tickets_codes in Hmade as (minted' & -> & Hcodes).
    exact Hcodes. }
  intros k t Ht. apply Hcodes in Ht. rewrite Ht. split_and!; [done| |].
  - rewrite <- (toUpperCase_length (codes k)). reflexivity.
  - intros c. simpl. intros [->|Hc]%elem_of_cons; [vm_compute; lia|].
    by apply (toUpperCase_upper (codes k)).
Qed.

Lemma ticket_codes_witness :
  ∃ s' t0 t1,
    post_tickets_purchase (Some 0%nat) (id_of 0%nat) (Some 2) "a1b2c3d4e" numbered_codes 3
      (one_account 100) = (s', PurchaseOk [t0; t1] 40) ∧
    ticketCode t1 = "TK3J9X0Q11" ∧ String.length (ticketCode t1) = 10%nat.
Proof.
  destruct (post_tickets_purchase (Some 0%nat) (id_of 0%nat) (Some 2) "a1b2c3d4e" numbered_codes 3
              (one_account 100)) as [s' res] eqn:Hrun.
  assert (∃ t0 t1, res = PurchaseOk [t0; t1] 40) as (t0 & t1 & ->).
  { vm_compute in Hrun. injection Hrun as _ <-. by eexists _, _. }
  destruct (ticket_codes _ _ _ _ _ _ _ _ _ _ Hrun 1%nat t1 eq_refl) as (Hcode & Hlen & _).
  exists s', t0, t1. split; [reflexivity|]. split; [exact Hcode|exact Hlen].
Defined.
